(** * BOOTCAMP agent: a shallow embedding of agent.py, api.py and app.py

    The repository wires a hosted language model to three tools and exposes
    the resulting agent through a console loop, an HTTP endpoint and a
    browser page.  The framework, the model, the HTTP client and the clock
    are outside the repository; they appear here as the outcomes the code
    observes (a returned value or a raised exception).

    Python [str] values are [string]s holding the UTF-8 bytes of the text.
    A raised exception is represented by the text [str(e)] gives for it. *)

From Stdlib Require Import ZArith NArith Ascii String List Lia Bool DecimalString.
From stdpp Require Import base option list strings gmap.

Open Scope string_scope.

(** ** Outcomes of calls that may raise *)

Inductive result (A : Type) : Type :=
| Ok (a : A)
| Raise (msg : string).
Arguments Ok {A} a.
Arguments Raise {A} msg.

#[global] Instance result_ret : MRet result := fun A a => Ok a.

#[global] Instance result_bind : MBind result := fun A B k r =>
  match r with
  | Ok a => k a
  | Raise e => Raise e
  end.

(** [l[-n:]] for a positive [n]: the last [n] elements, all of [l] when it
    is shorter. *)
Definition keep_last {A} (n : nat) (l : list A) : list A :=
  skipn (length l - n) l.

(** * agent.py: the chat function and its history *)

Module Agent.

(** An entry of [chat_history]: the tuple [(role, content)]. *)
Definition turn : Type := string * string.

(** The message objects handed to the framework. *)
Inductive message : Type :=
| HumanMessage (content : string)
| AIMessage (content : string).

(** The dict passed to [agent_executor.invoke]. *)
Record input_data : Type := {
  input : string;
  input_history : list message
}.

(** A Python object as [chat] looks at it: [None], a [str], or any other
    object, of which the code only uses the truth value and [str()]. *)
Inductive pyval : Type :=
| PyNone
| PyStr (s : string)
| PyObj (truth : bool) (as_str : result string).

(** What [invoke] returned: [None], a dict (with the value stored under
    ['output'], if the key is there), or any other object (with its
    [output] attribute, if it has one, and what [str(response)] does). *)
Inductive response : Type :=
| RespNone
| RespDict (output : option pyval)
| RespObject (output_attr : option pyval) (as_str : result string).

(** The behaviour of one [invoke] call. *)
Definition executor : Type := input_data -> result response.

(** The module state.  [chat_history] is the global of line 77.
    [invocations] and [transcript] are ghost logs that the source does not
    have: every [input_data] handed to [invoke], and every turn appended to
    the history since it was last emptied, oldest first; trimming removes
    nothing from them. *)
Record state : Type := {
  chat_history : list turn;
  invocations : list input_data;
  transcript : list turn
}.

Definition initial_state : state :=
  {| chat_history := []; invocations := []; transcript := [] |}.

Definition sentinel : string := "No response generated".

Definition msg_none : string := "No response was generated. Please try again.".
Definition msg_improper : string :=
  "I didn't get a proper response. Could you rephrase your question?".
Definition msg_trouble : string :=
  "I'm having trouble understanding. Could you rephrase your question?".
Definition msg_unsure : string :=
  "I'm not sure how to respond to that. Could you rephrase?".
Definition msg_sorry : string :=
  "I'm sorry, I encountered an error processing your request. Please try again.".

Definition msg_error (e : string) : string :=
  "I encountered an error: " ++ e ++ ". Could you please rephrase your question?".

(** Truth value of an object ([not output]). *)
Definition truthy (v : pyval) : bool :=
  match v with
  | PyNone => false
  | PyStr s => negb (String.eqb s "")
  | PyObj t _ => t
  end.

(** [str(v)]. *)
Definition py_str (v : pyval) : result string :=
  match v with
  | PyNone => Ok "None"
  | PyStr s => Ok s
  | PyObj _ r => r
  end.

(** Lines 187-195: one history entry gives at most one message. *)
Definition format_turn (msg : turn) : list message :=
  let '(role, content) := msg in
  if String.eqb role "human" then [HumanMessage content]
  else if String.eqb role "assistant" && negb (String.eqb content "")
       then [AIMessage content]
       else [].

Definition format_history (h : list turn) : list message :=
  concat (map format_turn h).

(** Lines 212-221: the value bound to [output] from the response. *)
Definition extract_output (r : response) : result pyval :=
  match r with
  | RespNone => Ok (PyStr msg_none)
  | RespDict o =>
      let output := match o with Some v => v | None => PyStr "" end in
      if truthy output then Ok output else Ok (PyStr msg_improper)
  | RespObject (Some PyNone) s | RespObject None s =>
      t ← s; Ok (PyStr t)
  | RespObject (Some v) _ =>
      t ← py_str v; Ok (PyStr t)
  end.

(** Lines 224-225: a falsy or non-[str] value is replaced. *)
Definition ensure_text (output : pyval) : string :=
  match output with
  | PyStr s => if String.eqb s "" then msg_trouble else s
  | _ => msg_trouble
  end.

(** Lines 208-228: the inner [try], with its [except]. *)
Definition invoke_and_extract (agent : executor) (d : input_data) : string :=
  match (r ← agent d; o ← extract_output r; Ok (ensure_text o)) with
  | Ok output => output
  | Raise e => msg_error e
  end.

(** Line 231: the guard of the append. *)
Definition recordable (output : string) : bool :=
  negb (String.eqb output "") && negb (String.eqb output sentinel).

(** Lines 236-237. *)
Definition trim_history (h : list turn) : list turn :=
  if (20 <? length h)%nat then keep_last 20 h else h.

(** The invariant of the history: it is the tail of everything recorded. *)
Definition history_invariant (st : state) : Prop :=
  chat_history st = keep_last 20 (transcript st).

Section Chat.

(** [create_agent()]: the executor it builds, or the exception it raises. *)
Variable create_agent : result executor.

(** Lines 198-199. *)
Definition acquire (agent_executor : option executor) : result executor :=
  match agent_executor with
  | Some a => Ok a
  | None => create_agent
  end.

(** The body of the outer [try] (lines 182-239).  The global is never
    [None], so the guard of line 183 does nothing. *)
Definition chat_body (user_input : string) (agent_executor : option executor)
    (st : state) : result (string * state) :=
  let formatted_history := format_history (chat_history st) in
  agent ← acquire agent_executor;
  let d := {| input := user_input; input_history := formatted_history |} in
  let output := invoke_and_extract agent d in
  let appended :=
    if recordable output
    then [("human", user_input); ("assistant", output)]
    else [] in
  let st' := {| chat_history := trim_history (chat_history st ++ appended);
                invocations := invocations st ++ [d];
                transcript := transcript st ++ appended |} in
  Ok (if String.eqb output "" then msg_unsure else output, st').

(** [chat(user_input, agent_executor)]: the reply and the new state. *)
Definition chat (user_input : string) (agent_executor : option executor)
    (st : state) : string * state :=
  match chat_body user_input agent_executor st with
  | Ok r => r
  | Raise _ => (msg_sorry, st)
  end.

(** A sequence of calls, each with its message and the executor passed. *)
Definition run_chats (calls : list (string * option executor)) (st : state)
    : state :=
  fold_left (fun s c => snd (chat (fst c) (snd c) s)) calls st.

End Chat.

End Agent.

(** * agent.py: the two local tools *)

Module Tools.

(** Decimal text of an integer, as [str(n)] and the numeric [strftime]
    fields print it. *)
Definition dec (n : Z) : string := NilZero.string_of_int (Z.to_int n).

(** Left padding with ['0'] up to a width; longer texts are kept whole. *)
Definition zfill (width : nat) (s : string) : string :=
  string_of_list_ascii (repeat "0"%char (width - String.length s)) ++ s.

(** ** The clock tool (lines 32-44) *)

(** A [datetime] is represented by its wall-clock reading counted in
    seconds from 1970-01-01 00:00:00; the calendar fields are computed from
    it.  The library accepts years 1 to 9999. *)
Definition datetime : Type := Z.

Definition min_datetime : Z := -62135596800.
Definition max_datetime : Z := 253402300799.

Definition in_range (s : Z) : bool :=
  (min_datetime <=? s)%Z && (s <=? max_datetime)%Z.

(** Year, month and day of a day number counted from 1970-01-01
    (proleptic Gregorian calendar). *)
Definition civil_from_days (days : Z) : Z * Z * Z :=
  (let z := days + 719468 in
   let era := z / 146097 in
   let doe := z - era * 146097 in
   let yoe := (doe - doe / 1460 + doe / 36524 - doe / 146096) / 365 in
   let y := yoe + era * 400 in
   let doy := doe - (365 * yoe + yoe / 4 - yoe / 100) in
   let mp := (5 * doy + 2) / 153 in
   let d := doy - (153 * mp + 2) / 5 + 1 in
   let m := if mp <? 10 then mp + 3 else mp - 9 in
   (if m <=? 2 then y + 1 else y, m, d))%Z.

Definition year (dt : datetime) : Z := fst (fst (civil_from_days (dt / 86400))).
Definition month (dt : datetime) : Z := snd (fst (civil_from_days (dt / 86400))).
Definition day (dt : datetime) : Z := snd (civil_from_days (dt / 86400)).
Definition hour (dt : datetime) : Z := ((dt mod 86400) / 3600)%Z.
Definition minute (dt : datetime) : Z := (((dt mod 86400) mod 3600) / 60)%Z.
Definition second (dt : datetime) : Z := (dt mod 60)%Z.

(** [%Y] of [strftime].  Years below 1000 are printed with four digits
    on some platforms and interpreter versions and without padding on
    others (glibc before Python 3.13); [pad_years] says which. *)
Definition year_text (pad_years : bool) (y : Z) : string :=
  if pad_years then zfill 4 (dec y) else dec y.

(** [now.strftime("%Y-%m-%d %H:%M:%S (IST)")]. *)
Definition strftime_ist (pad_years : bool) (dt : datetime) : string :=
  year_text pad_years (year dt) ++ "-" ++ zfill 2 (dec (month dt)) ++ "-"
  ++ zfill 2 (dec (day dt))
  ++ " " ++ zfill 2 (dec (hour dt)) ++ ":" ++ zfill 2 (dec (minute dt))
  ++ ":" ++ zfill 2 (dec (second dt)) ++ " (IST)".

(** [timedelta(hours=5, minutes=30)], in seconds. *)
Definition ist_delta : Z := (5 * 3600 + 30 * 60)%Z.

(** The offset of the zone Asia/Kolkata from UTC at POSIX time [t], as the
    time zone database records it: local mean time of Calcutta until 1854,
    Howrah and Madras time until 1906, then five and a half hours, with an
    extra hour in 1941-1942 and 1942-1945; five and a half hours at every
    instant since 15 October 1945. *)
Definition kolkata_utcoffset (t : Z) : Z :=
  (if t <? -3645237208 then 21208
   else if t <? -3155694800 then 21200
   else if t <? -2019705670 then 19270
   else if t <? -891581400 then 19800
   else if t <? -872058600 then 23400
   else if t <? -862637400 then 19800
   else if t <? -764145000 then 23400
   else 19800)%Z.

Section Clock.

(** Whether years below 1000 print with four digits. *)
Variable pad_years : bool.

(** Whether [from zoneinfo import ZoneInfo] succeeded (lines 26-30). *)
Variable zoneinfo_imported : bool.

(** What [ZoneInfo("Asia/Kolkata")] does: it returns the zone, or raises
    when the key is not found. *)
Variable zone_lookup : result unit.

(** The text of the exception raised for a POSIX time whose UTC reading
    lies outside the years 1 to 9999. *)
Variable range_error : Z -> string.

(** [datetime.utcnow()] at POSIX time [t]. *)
Definition datetime_utcnow (t : Z) : result datetime :=
  if in_range t then Ok t else Raise (range_error t).

(** [dt + delta]; the sum must stay within the years 1 to 9999. *)
Definition datetime_add (dt : datetime) (delta : Z) : result datetime :=
  if in_range (dt + delta) then Ok (dt + delta)%Z
  else Raise "date value out of range".

(** [datetime.now(tz)] at POSIX time [t]: the UTC reading is built first
    and the zone then moves it by its offset. *)
Definition datetime_now (t : Z) : result datetime :=
  u ← datetime_utcnow t; datetime_add u (kolkata_utcoffset t).

(** Lines 36-40: the value bound to [now]. *)
Definition current_now (t : Z) : result datetime :=
  if zoneinfo_imported
  then (_ ← zone_lookup; datetime_now t)
  else (u ← datetime_utcnow t; datetime_add u ist_delta).

(** [get_current_datetime()] called at POSIX time [t]. *)
Definition get_current_datetime (t : Z) : string :=
  match (now ← current_now t; Ok (strftime_ist pad_years now)) with
  | Ok s => s
  | Raise e => "Error getting current time: " ++ e
  end.

End Clock.

Definition is_digit (c : ascii) : bool :=
  (48 <=? nat_of_ascii c)%nat && (nat_of_ascii c <=? 57)%nat.

(** A zone label: one or more characters, none of them a parenthesis. *)
Definition is_label (l : list ascii) : bool :=
  negb (Nat.eqb (length l) 0)
  && forallb (fun c => negb (Ascii.eqb c "("%char) && negb (Ascii.eqb c ")"%char)) l.

(** A text of exactly two, or exactly four, decimal digits. *)
Definition two_digit_text (s : string) : bool :=
  match s with
  | String a (String b EmptyString) => is_digit a && is_digit b
  | _ => false
  end.

Definition four_digit_text (s : string) : bool :=
  match s with
  | String a (String b (String c (String d EmptyString))) =>
      is_digit a && is_digit b && is_digit c && is_digit d
  | _ => false
  end.

(** The shape [YYYY-MM-DD HH:MM:SS (<ZONE-LABEL>)]. *)
Definition matches_pattern (s : string) : bool :=
  match list_ascii_of_string s with
  | y1 :: y2 :: y3 :: y4 :: sep1 :: m1 :: m2 :: sep2 :: d1 :: d2 :: sp1
    :: h1 :: h2 :: c1 :: mi1 :: mi2 :: c2 :: s1 :: s2 :: sp2 :: lp :: rest =>
      forallb is_digit [y1; y2; y3; y4; m1; m2; d1; d2; h1; h2; mi1; mi2; s1; s2]
      && Ascii.eqb sep1 "-"%char && Ascii.eqb sep2 "-"%char
      && Ascii.eqb sp1 " "%char && Ascii.eqb c1 ":"%char && Ascii.eqb c2 ":"%char
      && Ascii.eqb sp2 " "%char && Ascii.eqb lp "("%char
      && match rev rest with
         | rp :: label => Ascii.eqb rp ")"%char && is_label label
         | [] => false
         end
  | _ => false
  end.

(** ** The weather tool (lines 46-70) *)

(** A decoded JSON document (numbers are integers here). *)
#[local] Set Warnings "-register-all".
Inductive json : Type :=
| JNull
| JBool (b : bool)
| JNum (n : Z)
| JStr (s : string)
| JArr (items : list json)
| JObj (fields : list (string * json)).

(** What [requests.get] does: it raises, or returns a response with a
    status code and a body that [response.json()] decodes or rejects. *)
Inductive http_outcome : Type :=
| HttpRaise (e : string)
| HttpResponse (status_code : Z) (body : result json).

Definition type_name (v : json) : string :=
  match v with
  | JNull => "NoneType"
  | JBool _ => "bool"
  | JNum _ => "int"
  | JStr _ => "str"
  | JArr _ => "list"
  | JObj _ => "dict"
  end.

Fixpoint assoc (k : string) (fields : list (string * json)) : option json :=
  match fields with
  | [] => None
  | (k', v) :: rest => if String.eqb k k' then Some v else assoc k rest
  end.

(** Line 56: the address asked for a city. *)
Definition wttr_url (city : string) : string :=
  "https://wttr.in/" ++ city ++ "?format=j1".

Section Weather.

(** The provider as seen through [requests.get(url, timeout=10)]. *)
Variable requests_get : string -> http_outcome.

(** The text of the [TypeError] raised when a value of the named type is
    subscripted with a key ([true]) or an index ([false]) it does not
    support; the wording depends on the interpreter version. *)
Variable type_error : string -> bool -> string.

(** How a list or a dict prints inside an f-string. *)
Variable repr_container : json -> string.

(** [v[k]] for a string key. *)
Definition getitem_key (v : json) (k : string) : result json :=
  match v with
  | JObj fields =>
      match assoc k fields with
      | Some x => Ok x
      | None => Raise ("'" ++ k ++ "'")
      end
  | _ => Raise (type_error (type_name v) true)
  end.

(** [v[0]].  Indexing a text gives a one-character text; the code only
    ever subscripts it again, which raises, so its content is not
    observed (the first byte stands for it). *)
Definition getitem_0 (v : json) : result json :=
  match v with
  | JArr (x :: _) => Ok x
  | JArr [] => Raise "list index out of range"
  | JStr (String c _) => Ok (JStr (String c ""))
  | JStr "" => Raise "string index out of range"
  | JObj _ => Raise "0"
  | _ => Raise (type_error (type_name v) false)
  end.

(** A value interpolated in an f-string. *)
Definition format_value (v : json) : string :=
  match v with
  | JNull => "None"
  | JBool true => "True"
  | JBool false => "False"
  | JNum n => dec n
  | JStr s => s
  | _ => repr_container v
  end.

(** Lines 59-66: the branch for status 200. *)
Definition weather_sentence (city : string) (body : result json) : result string :=
  data ← body;
  cc ← getitem_key data "current_condition";
  current ← getitem_0 cc;
  wd ← getitem_key current "weatherDesc";
  wd0 ← getitem_0 wd;
  weather_desc ← getitem_key wd0 "value";
  temp_c ← getitem_key current "temp_C";
  feels_like ← getitem_key current "FeelsLikeC";
  humidity ← getitem_key current "humidity";
  Ok ("Weather in " ++ city ++ ": " ++ format_value weather_desc
      ++ ", Temperature: " ++ format_value temp_c ++ "°C (feels like "
      ++ format_value feels_like ++ "°C), Humidity: " ++ format_value humidity
      ++ "%").

(** [get_weather(city)]. *)
Definition get_weather (city : string) : string :=
  let url := wttr_url city in
  let attempt :=
    match requests_get url with
    | HttpRaise e => Raise e
    | HttpResponse status_code body =>
        if (status_code =? 200)%Z
        then weather_sentence city body
        else Ok ("Could not fetch weather for " ++ city)
    end in
  match attempt with
  | Ok s => s
  | Raise e => "Error getting weather: " ++ e
  end.

End Weather.

(** The payload of a well-formed answer. *)
Definition wttr_payload (desc temp feels hum : string) : json :=
  JObj [("current_condition",
         JArr [JObj [("weatherDesc", JArr [JObj [("value", JStr desc)]]);
                     ("temp_C", JStr temp);
                     ("FeelsLikeC", JStr feels);
                     ("humidity", JStr hum)]])].

End Tools.

(** * api.py: the HTTP endpoint and its session storage *)

Module Api.

(** ** [str(uuid.uuid4())] *)

Definition hex_digit (d : N) : ascii :=
  nth (N.to_nat d) (list_ascii_of_string "0123456789abcdef") "0"%char.

(** The [k] lowest hexadecimal digits of [n], lowest first. *)
Fixpoint hex_rev (k : nat) (n : N) : list ascii :=
  match k with
  | O => []
  | S k' => hex_digit (n mod 16) :: hex_rev k' (n / 16)
  end.

(** ['%032x' % n] for [n] below [2^128]. *)
Definition hex32 (n : N) : list ascii := rev (hex_rev 32 n).

(** The integer of a version 4 UUID built from the integer [r] of sixteen
    random bytes: variant bits [10], version nibble [4]. *)
Definition uuid4_int (r : N) : N :=
  let i := (r mod 2 ^ 128)%N in
  let i := N.ldiff i (N.shiftl 0xc000 48) in
  let i := N.lor i (N.shiftl 0x8000 48) in
  let i := N.ldiff i (N.shiftl 0xf000 64) in
  N.lor i (N.shiftl 4 76).

Definition uuid_str (n : N) : string :=
  let h := hex32 n in
  string_of_list_ascii
    (firstn 8 h ++ "-"%char :: firstn 4 (skipn 8 h) ++ "-"%char
     :: firstn 4 (skipn 12 h) ++ "-"%char :: firstn 4 (skipn 16 h)
     ++ "-"%char :: skipn 20 h).

Definition uuid4_str (r : N) : string := uuid_str (uuid4_int r).

(** ** Requests, responses, state *)

Record ChatRequest : Type := {
  message : string;
  session_id : option string
}.

(** What the caller receives: the JSON body with status 200, or the
    [HTTPException] with status 500. *)
Inductive http_result : Type :=
| Status200 (response : string) (sid : string)
| Status500 (detail : string).

(** A message object of the executor's memory, with the attributes the
    code probes. *)
Record memory_message : Type := {
  msg_content : option string;
  msg_type : option string
}.

(** An element of [updated_history]: a memory message, or a tuple taken
    from the session list. *)
Inductive history_item : Type :=
| MemoryMessage (m : memory_message)
| SessionTuple (t : Agent.turn).

(** What one request meets outside the repository. *)
Record env : Type := {
  urandom : result N;
  ensure_memory : result unit;
  invoke : Agent.executor;
  memory_messages : option (result (list memory_message))
}.

(** The process state: the globals of module [agent], the list objects
    allocated for sessions (a list object is named by its index in
    [heap]), and the dict [session_storage]. *)
Record state : Type := {
  agent : Agent.state;
  heap : list (list Agent.turn);
  session_storage : gmap string nat
}.

Definition initial_state : state :=
  {| agent := Agent.initial_state; heap := []; session_storage := ∅ |}.

(** Lines 50-53.  The result names the list object that is returned. *)
Definition get_or_create_session (sid : string) (st : state) : nat * state :=
  match session_storage st !! sid with
  | Some l => (l, st)
  | None =>
      let l := length (heap st) in
      (l, {| agent := agent st;
             heap := heap st ++ [[]];
             session_storage := <[sid := l]> (session_storage st) |})
  end.

(** Lines 59-63. *)
Definition resolve_session_id (req : ChatRequest) (e : env) : result string :=
  match session_id req with
  | Some s => if String.eqb s "" then (r ← urandom e; Ok (uuid4_str r)) else Ok s
  | None => r ← urandom e; Ok (uuid4_str r)
  end.

(** Lines 91-94. *)
Definition serialize_item (i : history_item) : list Agent.turn :=
  match i with
  | MemoryMessage m =>
      match msg_content m with
      | Some c =>
          [(match msg_type m with
            | Some t => if String.eqb t "ai" then "assistant" else "user"
            | None => "user"
            end, c)]
      | None => []
      end
  | SessionTuple _ => []
  end.

Definition is_nil {A} (l : list A) : bool :=
  match l with [] => true | _ => false end.

Section Endpoint.

Variable create_agent : result Agent.executor.

(** Lines 78-102, once [chat] has returned [response]. *)
Definition store_history (sid : string) (session : nat)
    (msgs : list memory_message) (st : state) : state :=
  let updated_history := map MemoryMessage msgs in
  let updated_history :=
    if is_nil updated_history
    then map SessionTuple (default [] (heap st !! session))
    else updated_history in
  let serialized_history := concat (map serialize_item updated_history) in
  if is_nil serialized_history then st
  else {| agent := agent st;
          heap := heap st ++ [serialized_history];
          session_storage := <[sid := length (heap st)]> (session_storage st) |}.

(** [chat_endpoint(chat_request)]. *)
Definition chat_endpoint (req : ChatRequest) (e : env) (st : state)
    : http_result * state :=
  match resolve_session_id req e with
  | Raise detail => (Status500 detail, st)
  | Ok sid =>
      let '(session, st1) := get_or_create_session sid st in
      match ensure_memory e with
      | Raise _ => (Status200 Agent.msg_sorry sid, st1)
      | Ok _ =>
          let '(response, ag) :=
            Agent.chat create_agent (message req) (Some (invoke e)) (agent st1) in
          let st2 := {| agent := ag; heap := heap st1;
                        session_storage := session_storage st1 |} in
          match memory_messages e with
          | Some (Raise _) => (Status200 Agent.msg_sorry sid, st2)
          | Some (Ok msgs) => (Status200 response sid, store_history sid session msgs st2)
          | None => (Status200 response sid, store_history sid session [] st2)
          end
      end
  end.

(** A sequence of requests, each with what it meets. *)
Fixpoint serve (reqs : list (ChatRequest * env)) (st : state)
    : list http_result * state :=
  match reqs with
  | [] => ([], st)
  | (req, e) :: rest =>
      let '(r, st1) := chat_endpoint req e st in
      let '(rs, st2) := serve rest st1 in
      (r :: rs, st2)
  end.

End Endpoint.

End Api.

(** * The callers of [chat]: the console loop and the browser page *)

Module Text.

Definition code (c : ascii) : nat := nat_of_ascii c.

(** A whitespace character of one, two or three UTF-8 bytes: the
    characters [str.strip()] removes and [str.isspace()] accepts. *)
Definition ws1 (a : ascii) : bool :=
  let n := code a in
  ((9 <=? n) && (n <=? 13) || (28 <=? n) && (n <=? 32))%nat.

Definition ws2 (a b : ascii) : bool :=
  (Nat.eqb (code a) 194 && (Nat.eqb (code b) 133 || Nat.eqb (code b) 160))%nat.

Definition ws3 (a b c : ascii) : bool :=
  let '(x, y, z) := (code a, code b, code c) in
  (Nat.eqb x 225 && Nat.eqb y 154 && Nat.eqb z 128
   || Nat.eqb x 226 && Nat.eqb y 128
      && ((128 <=? z) && (z <=? 138) || Nat.eqb z 168 || Nat.eqb z 169 || Nat.eqb z 175)
   || Nat.eqb x 226 && Nat.eqb y 129 && Nat.eqb z 159
   || Nat.eqb x 227 && Nat.eqb y 128 && Nat.eqb z 128)%nat.

(** Removal of the leading whitespace. *)
Fixpoint lstrip (s : list ascii) : list ascii :=
  match s with
  | [] => []
  | a :: t1 =>
      if ws1 a then lstrip t1
      else match t1 with
           | [] => s
           | b :: t2 =>
               if ws2 a b then lstrip t2
               else match t2 with
                    | [] => s
                    | c :: t3 => if ws3 a b c then lstrip t3 else s
                    end
           end
  end.

(** The same on the reversed text: the last byte comes first. *)
Fixpoint lstrip_rev (s : list ascii) : list ascii :=
  match s with
  | [] => []
  | c :: t1 =>
      if ws1 c then lstrip_rev t1
      else match t1 with
           | [] => s
           | b :: t2 =>
               if ws2 b c then lstrip_rev t2
               else match t2 with
                    | [] => s
                    | a :: t3 => if ws3 a b c then lstrip_rev t3 else s
                    end
           end
  end.

(** [s.strip()]. *)
Definition strip (s : string) : string :=
  string_of_list_ascii
    (rev (lstrip_rev (rev (lstrip (list_ascii_of_string s))))).

(** A text made of whitespace characters only (the empty text included). *)
Fixpoint blank_list (s : list ascii) : bool :=
  match s with
  | [] => true
  | a :: t1 =>
      ws1 a && blank_list t1
      || match t1 with
         | [] => false
         | b :: t2 =>
             ws2 a b && blank_list t2
             || match t2 with
                | [] => false
                | c :: t3 => ws3 a b c && blank_list t3
                end
         end
  end.

Definition blank (s : string) : bool := blank_list (list_ascii_of_string s).

Definition lower_char (c : ascii) : ascii :=
  if ((65 <=? code c) && (code c <=? 90))%nat then ascii_of_nat (code c + 32) else c.

(** [s.lower()], on the letters A to Z. *)
Fixpoint lower (s : string) : string :=
  match s with
  | EmptyString => EmptyString
  | String c s' => String (lower_char c) (lower s')
  end.

End Text.

Module Console.

(** What [input("You: ")] does: it returns a line, or raises [EOFError] or
    [KeyboardInterrupt]. *)
Inductive read : Type :=
| Line (s : string)
| EndOfInput.

(** The loop either goes on with a state or has left. *)
Inductive status : Type :=
| Running (st : Agent.state)
| Stopped (st : Agent.state).

Section Loop.

Variable create_agent : result Agent.executor.

(** One iteration of the loop of lines 288-324; what is printed is left
    out.  [agent] is the behaviour of [invoke] during this iteration. *)
Definition step (r : read) (agent : Agent.executor) (st : Agent.state) : status :=
  match r with
  | EndOfInput => Stopped st
  | Line l =>
      let user_input := Text.strip l in
      if String.eqb user_input "" then Running st
      else
        let cmd := Text.lower user_input in
        if existsb (String.eqb cmd) ["quit"; "exit"; "q"] then Stopped st
        else if String.eqb cmd "history" then Running st
        else if String.eqb cmd "clear"
        then Running {| Agent.chat_history := [];
                        Agent.invocations := Agent.invocations st;
                        Agent.transcript := [] |}
        else Running (snd (Agent.chat create_agent user_input (Some agent) st))
  end.

End Loop.

End Console.

Module App.

(** An element of [st.session_state.messages]. *)
Record ui_message : Type := {
  role : string;
  content : string;
  ts : Z
}.

Record state : Type := {
  messages : list ui_message;
  agent : Agent.state
}.

Definition msg_failed : string := "⚠️ Agent failed to respond. Check logs.".

(** Lines 190-194: the newest assistant bubble receives the final text. *)
Fixpoint update_first_assistant (l : list ui_message) (text : string) (t : Z)
    : list ui_message :=
  match l with
  | [] => []
  | m :: rest =>
      if String.eqb (role m) "assistant"
      then {| role := role m; content := text; ts := t |} :: rest
      else m :: update_first_assistant rest text t
  end.

Definition update_last_assistant (l : list ui_message) (text : string) (t : Z)
    : list ui_message :=
  rev (update_first_assistant (rev l) text t).

Section Page.

Variable create_agent : result Agent.executor.

(** The successive readings of [time.time()] during one run. *)
Variable time : nat -> Z.

(** Lines 159-213: one run of the script after the form was drawn.
    [agent_exec] is line 173: the stored executor, or the exception
    [ensure_agent_ready] raises. *)
Definition on_submit (submit : bool) (user_input : string)
    (agent_exec : result Agent.executor) (st : state) : state :=
  if submit && negb (String.eqb user_input "")
     && negb (String.eqb (Text.strip user_input) "")
  then
    let text := Text.strip user_input in
    let msgs :=
      (messages st ++ [{| role := "user"; content := text; ts := time 0 |}])%list in
    let msgs :=
      (msgs ++ [{| role := "assistant"; content := "Thinking..."; ts := time 1 |}])%list in
    match agent_exec with
    | Ok a =>
        let '(response, ag) := Agent.chat create_agent text (Some a) (agent st) in
        {| messages := update_last_assistant msgs response (time 3); agent := ag |}
    | Raise _ =>
        {| messages := update_last_assistant msgs msg_failed (time 2); agent := agent st |}
    end
  else st.

End Page.

End App.

(** * Further code of the callers, and notions for stating what it keeps *)

Module Exchange.

(** The two history entries one recorded exchange adds (lines 232-233),
    and the two messages they are formatted to (lines 191-195). *)
Definition turns (p : string * string) : list Agent.turn :=
  [("human", fst p); ("assistant", snd p)].

Definition messages (p : string * string) : list Agent.message :=
  [Agent.HumanMessage (fst p); Agent.AIMessage (snd p)].

(** Whether a call has an executor to invoke: the one passed, or the one
    [create_agent] builds. *)
Definition available (create_agent : result Agent.executor)
    (agent_executor : option Agent.executor) : bool :=
  match Agent.acquire create_agent agent_executor with
  | Ok _ => true
  | Raise _ => false
  end.

End Exchange.

Module Session.

Definition state_of (s : Console.status) : Agent.state :=
  match s with
  | Console.Running st | Console.Stopped st => st
  end.

(** The words the loop of agent.py handles itself (lines 298-316). *)
Definition is_command (cmd : string) : bool :=
  existsb (String.eqb cmd) ["quit"; "exit"; "q"; "history"; "clear"].

(** The [while True] loop over the successive outcomes of [input], each
    with the behaviour of [invoke] at that moment; it leaves at the first
    [break]. *)
Fixpoint run (create_agent : result Agent.executor)
    (inputs : list (Console.read * Agent.executor)) (st : Agent.state)
    : Console.status :=
  match inputs with
  | [] => Console.Running st
  | (r, a) :: rest =>
      match Console.step create_agent r a st with
      | Console.Running st' => run create_agent rest st'
      | Console.Stopped st' => Console.Stopped st'
      end
  end.

End Session.

Module Startup.

(** The entries of [st.session_state] that app.py uses for the agent. *)
Record session_state : Type := {
  agent_ready : bool;
  agent_executor : option Agent.executor
}.

(** Lines 67-71 under [st.cache_resource]: the executor is built once and
    kept in [cache]; a failed build caches nothing. *)
Definition get_agent_executor_cached (create_agent : result Agent.executor)
    (cache : option Agent.executor) : result Agent.executor * option Agent.executor :=
  match cache with
  | Some a => (Ok a, cache)
  | None =>
      match create_agent with
      | Ok a => (Ok a, Some a)
      | Raise e => (Raise e, None)
      end
  end.

(** Lines 73-79. *)
Definition ensure_agent_ready (create_agent : result Agent.executor)
    (ss : session_state) (cache : option Agent.executor)
    : result Agent.executor * session_state * option Agent.executor :=
  match agent_ready ss, agent_executor ss with
  | true, Some a => (Ok a, ss, cache)
  | _, _ =>
      match get_agent_executor_cached create_agent cache with
      | (Ok a, cache') =>
          (Ok a, {| agent_ready := true; agent_executor := Some a |}, cache')
      | (Raise e, cache') => (Raise e, ss, cache')
      end
  end.

(** Line 173: the stored executor, or else [ensure_agent_ready()]. *)
Definition agent_exec (create_agent : result Agent.executor)
    (ss : session_state) (cache : option Agent.executor)
    : result Agent.executor * session_state * option Agent.executor :=
  match agent_executor ss with
  | Some a => (Ok a, ss, cache)
  | None => ensure_agent_ready create_agent ss cache
  end.

End Startup.

Module Storage.

(** Lines 79-94 for the executor's memory: the tuples its messages are
    serialized to (none when the memory cannot be read or holds nothing
    with a [content]). *)
Definition memory_turns (e : Api.env) : list Agent.turn :=
  match Api.memory_messages e with
  | Some (Ok msgs) => concat (map Api.serialize_item (map Api.MemoryMessage msgs))
  | _ => []
  end.

(** The stored list of a session, when the id is a key. *)
Definition session_of (sid : string) (st : Api.state) : option (list Agent.turn) :=
  l ← Api.session_storage st !! sid; Api.heap st !! l.

(** Every stored id names a list object of the heap, and no two ids name
    the same one. *)
Definition well_formed (st : Api.state) : Prop :=
  (∀ sid l, Api.session_storage st !! sid = Some l → (l < length (Api.heap st))%nat)
  ∧ (∀ s1 s2 l, Api.session_storage st !! s1 = Some l →
                Api.session_storage st !! s2 = Some l → s1 = s2).

End Storage.

(** * Facts about lists and texts *)

Open Scope nat_scope.

Section ListFacts.

Context {A : Type}.
Implicit Types l k : list A.

Lemma keep_last_short n l : length l ≤ n → keep_last n l = l.
Proof.
  intros H. unfold keep_last.
  replace (length l - n) with 0 by lia. reflexivity.
Qed.

Lemma keep_last_length n l : length (keep_last n l) = Nat.min n (length l).
Proof. unfold keep_last. rewrite length_drop. lia. Qed.

Lemma keep_last_suffix n l : keep_last n l `suffix_of` l.
Proof. apply suffix_drop. Qed.

(** Trimming and then appending loses nothing that trimming at the end
    would keep. *)
Lemma keep_last_app n l k :
  keep_last n (keep_last n l ++ k) = keep_last n (l ++ k).
Proof.
  destruct (decide (length l ≤ n)) as [Hle | Hgt].
  - by rewrite (keep_last_short n l).
  - unfold keep_last.
    rewrite !length_app, length_drop, !drop_app, drop_drop, length_drop.
    f_equal; f_equal; lia.
Qed.

(** A tail no longer than the bound survives the cut. *)
Lemma keep_last_app_tail n l k :
  length k ≤ n → ∃ older, keep_last n (l ++ k) = (older ++ k)%list.
Proof.
  intros H. unfold keep_last. rewrite length_app.
  rewrite drop_app_le by lia. eauto.
Qed.

End ListFacts.

Lemma eqb_false_neq (s t : string) : String.eqb s t = false ↔ s ≠ t.
Proof. apply String.eqb_neq. Qed.

(** * The history of [chat] *)

Section ChatFacts.

Import Agent.

Variable create_agent : result executor.

Lemma trim_history_keep_last h : trim_history h = keep_last 20 h.
Proof.
  unfold trim_history. destruct (Nat.ltb_spec 20 (length h)); [done |].
  by rewrite keep_last_short.
Qed.

Lemma ensure_text_nonempty o : ensure_text o ≠ "".
Proof.
  destruct o as [| s |]; simpl; try discriminate.
  destruct (String.eqb_spec s ""); [discriminate | done].
Qed.

(** The text the inner block binds to [output] is never empty. *)
Lemma invoke_and_extract_nonempty a d : invoke_and_extract a d ≠ "".
Proof.
  unfold invoke_and_extract.
  destruct (a d) as [r | e]; simpl; [| discriminate].
  destruct (extract_output r) as [o | e]; simpl; [| discriminate].
  apply ensure_text_nonempty.
Qed.

(** [chat] unfolded for an executor that is at hand. *)
Lemma chat_with_agent u ex a st :
  acquire create_agent ex = Ok a →
  let d := {| input := u; input_history := format_history (chat_history st) |} in
  let output := invoke_and_extract a d in
  let appended :=
    if recordable output then [("human", u); ("assistant", output)] else [] in
  chat create_agent u ex st
  = (output,
     {| chat_history := keep_last 20 (chat_history st ++ appended);
        invocations := invocations st ++ [d];
        transcript := transcript st ++ appended |}).
Proof.
  intros Ha. unfold chat, chat_body. rewrite Ha. simpl.
  rewrite trim_history_keep_last.
  pose proof (invoke_and_extract_nonempty a
    {| input := u; input_history := format_history (chat_history st) |}) as Hne.
  apply eqb_false_neq in Hne. by rewrite Hne.
Qed.

Lemma chat_without_agent u ex e st :
  acquire create_agent ex = Raise e →
  chat create_agent u ex st = (msg_sorry, st).
Proof. intros Ha. unfold chat, chat_body. by rewrite Ha. Qed.

Lemma history_invariant_initial : history_invariant initial_state.
Proof. reflexivity. Qed.

Lemma history_invariant_chat u ex st :
  history_invariant st →
  history_invariant (snd (chat create_agent u ex st)).
Proof.
  unfold history_invariant. intros Hinv.
  destruct (acquire create_agent ex) as [a | e] eqn:Ha.
  - rewrite (chat_with_agent u ex a st Ha). simpl.
    rewrite Hinv. apply keep_last_app.
  - by rewrite (chat_without_agent u ex e st Ha).
Qed.

Lemma history_invariant_run calls st :
  history_invariant st →
  history_invariant (run_chats create_agent calls st).
Proof.
  revert st. induction calls as [| c calls IH]; intros st Hinv; [done |].
  simpl. apply IH. by apply history_invariant_chat.
Qed.

(** The console loop keeps the invariant too: [clear] empties both the
    history and the record. *)
Lemma history_invariant_console r agent st :
  history_invariant st →
  match Console.step create_agent r agent st with
  | Console.Running st' | Console.Stopped st' => history_invariant st'
  end.
Proof.
  intros Hinv. unfold Console.step.
  destruct r as [l |]; [| done].
  destruct (String.eqb (Text.strip l) ""); [done |].
  destruct (existsb _ _); [done |].
  destruct (String.eqb _ "history"); [done |].
  destruct (String.eqb _ "clear"); [done |].
  by apply history_invariant_chat.
Qed.

(** Whatever happens, the text [chat] returns is not empty. *)
Lemma chat_reply_nonempty u ex st : fst (chat create_agent u ex st) ≠ "".
Proof.
  destruct (acquire create_agent ex) as [a | e] eqn:Ha.
  - rewrite (chat_with_agent u ex a st Ha). apply invoke_and_extract_nonempty.
  - by rewrite (chat_without_agent u ex e st Ha).
Qed.

End ChatFacts.

(** C1.  After any sequence of [chat] calls from the empty history, the
    stored history is exactly the last 20 of all the turns that were ever
    appended: it never holds more than 20 turns, it holds 20 as soon as 20
    were appended, and it is a suffix of the record of appended turns, so
    the oldest turns are the ones dropped and the others keep their order.
    A further call either leaves the history as it is or appends the pair
    (user turn, assistant turn) and keeps the last 20 entries. *)
Theorem history_keeps_last_20 (create_agent : result Agent.executor)
    (calls : list (string * option Agent.executor))
    (u : string) (ex : option Agent.executor) :
  let st := Agent.run_chats create_agent calls Agent.initial_state in
  let r := Agent.chat create_agent u ex st in
  Agent.chat_history st = keep_last 20 (Agent.transcript st)
  ∧ length (Agent.chat_history st) = Nat.min 20 (length (Agent.transcript st))
  ∧ length (Agent.chat_history st) ≤ 20
  ∧ Agent.chat_history st `suffix_of` Agent.transcript st
  ∧ (Agent.chat_history (snd r) = Agent.chat_history st
     ∨ Agent.chat_history (snd r)
       = keep_last 20 (Agent.chat_history st ++ [("human", u); ("assistant", fst r)])).
Proof.
  intros st r.
  assert (Hinv : Agent.history_invariant st)
    by apply history_invariant_run, history_invariant_initial.
  unfold Agent.history_invariant in Hinv.
  assert (Hlen : length (Agent.chat_history st) ≤ 20).
  { rewrite Hinv, keep_last_length. lia. }
  split; [done |]. split; [by rewrite Hinv at 1; rewrite keep_last_length |].
  split; [done |]. split; [rewrite Hinv; apply keep_last_suffix |].
  subst r. destruct (Agent.acquire create_agent ex) as [a | e] eqn:Ha.
  - rewrite (chat_with_agent create_agent u ex a st Ha). cbn [fst snd Agent.chat_history].
    destruct (Agent.recordable _); [by right |].
    left. rewrite app_nil_r. by apply keep_last_short.
  - left. by rewrite (chat_without_agent create_agent u ex e st Ha).
Qed.

(** C3, as stated, fails.  A reply equal to the text "no response
    generated" is recorded, because the guard compares with "No response
    generated"; and when the agent cannot be created the handler returns a
    text that is neither empty nor the sentinel and records nothing. *)
Lemma lowercase_sentinel_is_recorded :
  let ex : Agent.executor :=
    fun _ => Ok (Agent.RespDict (Some (Agent.PyStr "no response generated"))) in
  let r := Agent.chat (Raise "no key") "hi" (Some ex) Agent.initial_state in
  let r' := Agent.chat (Raise "no key") "hi" None Agent.initial_state in
  fst r = "no response generated"
  ∧ Agent.chat_history (snd r)
    = [("human", "hi"); ("assistant", "no response generated")]
  ∧ fst r' = Agent.msg_sorry
  ∧ Agent.chat_history (snd r') = [].
Proof. vm_compute. done. Qed.

(** C3, amended.  When the agent is at hand the reply is never empty, and
    the pair of turns is appended exactly when the reply differs from
    "No response generated" (compared as written, capital N); when it
    equals that text the history stays as it was.  When the agent cannot be
    created nothing is recorded. *)
Theorem chat_records_unless_sentinel (create_agent : result Agent.executor)
    (u : string) (ex : option Agent.executor) (st : Agent.state)
    (Hlen : length (Agent.chat_history st) ≤ 20) :
  let reply := fst (Agent.chat create_agent u ex st) in
  let st' := snd (Agent.chat create_agent u ex st) in
  match Agent.acquire create_agent ex with
  | Ok _ =>
      reply ≠ ""
      ∧ (Agent.transcript st'
           = (Agent.transcript st ++ [("human", u); ("assistant", reply)])%list
         ↔ reply ≠ "" ∧ reply ≠ Agent.sentinel)
      ∧ (reply ≠ Agent.sentinel →
         Agent.chat_history st'
         = keep_last 20 (Agent.chat_history st ++ [("human", u); ("assistant", reply)]))
      ∧ (reply = "" ∨ reply = Agent.sentinel →
         Agent.chat_history st' = Agent.chat_history st
         ∧ Agent.transcript st' = Agent.transcript st)
  | Raise _ => reply = Agent.msg_sorry ∧ st' = st
  end.
Proof.
  intros reply st'. subst reply st'.
  destruct (Agent.acquire create_agent ex) as [a | e] eqn:Ha.
  2: { by rewrite (chat_without_agent create_agent u ex e st Ha). }
  rewrite (chat_with_agent create_agent u ex a st Ha). simpl.
  set (output := Agent.invoke_and_extract a _).
  assert (Hne : output ≠ "") by apply invoke_and_extract_nonempty.
  unfold Agent.recordable.
  apply eqb_false_neq in Hne as Hne'. rewrite Hne'. simpl.
  destruct (String.eqb_spec output Agent.sentinel) as [Heq | Hneq]; simpl.
  - split; [done |]. split; [| split].
    + split; [| intros [_ ?]; done].
      intros H. apply (f_equal length) in H.
      rewrite app_nil_r, length_app in H. simpl in H. lia.
    + done.
    + intros _. rewrite !app_nil_r. split; [| done]. by apply keep_last_short.
  - split; [done |]. split; [| split].
    + done.
    + done.
    + intros [? | ?]; done.
Qed.

Lemma chat_records_unless_sentinel_witness :
  let ex : Agent.executor :=
    fun _ => Ok (Agent.RespDict (Some (Agent.PyStr "fine"))) in
  let reply := fst (Agent.chat (Raise "no key") "hi" (Some ex) Agent.initial_state) in
  let st' := snd (Agent.chat (Raise "no key") "hi" (Some ex) Agent.initial_state) in
  length (Agent.chat_history Agent.initial_state) ≤ 20
  ∧ reply ≠ ""
  ∧ (Agent.transcript st' = [("human", "hi"); ("assistant", reply)]
     ↔ reply ≠ "" ∧ reply ≠ Agent.sentinel)
  ∧ (reply ≠ Agent.sentinel →
     Agent.chat_history st' = keep_last 20 [("human", "hi"); ("assistant", reply)])
  ∧ (reply = "" ∨ reply = Agent.sentinel →
     Agent.chat_history st' = [] ∧ Agent.transcript st' = []).
Proof.
  intros ex reply st'.
  split; [simpl; lia |].
  apply (chat_records_unless_sentinel (Raise "no key") "hi" (Some ex)
           Agent.initial_state).
  simpl; lia.
Defined.

(** C4, as stated, fails: the text returned when the external call raises
    is not fixed, it quotes the exception. *)
Lemma error_reply_quotes_exception :
  let reply (e : string) :=
    fst (Agent.chat (Raise "no key") "hi" (Some (fun _ => Raise e)) Agent.initial_state) in
  reply "timeout"
    = "I encountered an error: timeout. Could you please rephrase your question?"
  ∧ reply "quota"
    = "I encountered an error: quota. Could you please rephrase your question?"
  ∧ reply "timeout" ≠ reply "quota".
Proof. vm_compute. repeat split; discriminate. Qed.

(** C4, amended.  [chat] always returns a non-empty text and no failure
    leaves it.  When the external call raises, the text is "I encountered an
    error: <exception text>. Could you please rephrase your question?";
    when the response cannot be turned into a text the same template quotes
    that failure; when the agent cannot be created the text is the fixed
    apology and the state is untouched. *)
Theorem chat_converts_failures (create_agent : result Agent.executor)
    (u : string) (ex : option Agent.executor) (st : Agent.state) :
  let reply := fst (Agent.chat create_agent u ex st) in
  reply ≠ ""
  ∧ match Agent.acquire create_agent ex with
    | Raise _ => Agent.chat create_agent u ex st = (Agent.msg_sorry, st)
    | Ok a =>
        match a {| Agent.input := u;
                   Agent.input_history := Agent.format_history (Agent.chat_history st) |} with
        | Raise e => reply = Agent.msg_error e
        | Ok r =>
            match Agent.extract_output r with
            | Raise e => reply = Agent.msg_error e
            | Ok o => reply = Agent.ensure_text o
            end
        end
    end.
Proof.
  intros reply. subst reply. split; [apply chat_reply_nonempty |].
  destruct (Agent.acquire create_agent ex) as [a | e] eqn:Ha.
  - rewrite (chat_with_agent create_agent u ex a st Ha). simpl.
    unfold Agent.invoke_and_extract.
    destruct (a _) as [r | e]; simpl; [| done].
    by destruct (Agent.extract_output r).
  - by rewrite (chat_without_agent create_agent u ex e st Ha).
Qed.

(** * The endpoint *)

(** The three things reading the executor's memory can give. *)
Ltac case_memory e :=
  let msgs := fresh "msgs" in
  let err := fresh "err" in
  destruct (Api.memory_messages e) as [[msgs | err] |]; simpl.

Section EndpointFacts.

Import Api.

Variable create_agent : result Agent.executor.

Lemma get_or_create_session_known sid st l :
  session_storage st !! sid = Some l →
  get_or_create_session sid st = (l, st).
Proof. intros H. unfold get_or_create_session. by rewrite H. Qed.

Lemma get_or_create_session_agent sid st :
  agent (snd (get_or_create_session sid st)) = agent st.
Proof.
  unfold get_or_create_session. by destruct (session_storage st !! sid).
Qed.

Lemma get_or_create_session_stored sid st :
  session_storage (snd (get_or_create_session sid st)) !! sid
  = Some (fst (get_or_create_session sid st)).
Proof.
  unfold get_or_create_session.
  destruct (session_storage st !! sid) eqn:H; simpl; [done |].
  apply lookup_insert_eq.
Qed.

Lemma store_history_agent sid session msgs st :
  agent (store_history sid session msgs st) = agent st.
Proof. unfold store_history. by destruct (is_nil _). Qed.

Lemma store_history_keeps_key sid session msgs st :
  is_Some (session_storage st !! sid) →
  is_Some (session_storage (store_history sid session msgs st) !! sid).
Proof.
  intros H. unfold store_history. destruct (is_nil _); [done |].
  simpl. rewrite lookup_insert_eq. eauto.
Qed.

(** The endpoint once the session id is known and the memory is in place. *)
Lemma chat_endpoint_processed req e st sid :
  resolve_session_id req e = Ok sid →
  ensure_memory e = Ok () →
  let st1 := snd (get_or_create_session sid st) in
  let session := fst (get_or_create_session sid st) in
  let r := Agent.chat create_agent (message req) (Some (invoke e)) (agent st) in
  let st2 := {| agent := snd r; heap := heap st1;
                session_storage := session_storage st1 |} in
  chat_endpoint create_agent req e st
  = match memory_messages e with
    | Some (Raise _) => (Status200 Agent.msg_sorry sid, st2)
    | Some (Ok msgs) => (Status200 (fst r) sid, store_history sid session msgs st2)
    | None => (Status200 (fst r) sid, store_history sid session [] st2)
    end.
Proof.
  intros Hsid Hmem. unfold chat_endpoint. rewrite Hsid, Hmem.
  pose proof (get_or_create_session_agent sid st) as Hag.
  destruct (get_or_create_session sid st) as [session st1]. simpl in *.
  rewrite Hag.
  by destruct (Agent.chat create_agent (message req) (Some (invoke e)) (agent st)).
Qed.

Lemma chat_endpoint_memory_failed req e st sid err :
  resolve_session_id req e = Ok sid →
  ensure_memory e = Raise err →
  chat_endpoint create_agent req e st
  = (Status200 Agent.msg_sorry sid, snd (get_or_create_session sid st)).
Proof.
  intros Hsid Hmem. unfold chat_endpoint. rewrite Hsid, Hmem.
  by destruct (get_or_create_session sid st).
Qed.

Lemma chat_endpoint_unresolved req e st detail :
  resolve_session_id req e = Raise detail →
  chat_endpoint create_agent req e st = (Status500 detail, st).
Proof. intros Hsid. unfold chat_endpoint. by rewrite Hsid. Qed.

Lemma chat_endpoint_agent req e st sid :
  resolve_session_id req e = Ok sid →
  ensure_memory e = Ok () →
  agent (snd (chat_endpoint create_agent req e st))
  = snd (Agent.chat create_agent (message req) (Some (invoke e)) (agent st)).
Proof.
  intros Hsid Hmem. rewrite (chat_endpoint_processed req e st sid Hsid Hmem).
  case_memory e; by rewrite ?store_history_agent.
Qed.

Lemma chat_endpoint_status_200 req e st sid :
  resolve_session_id req e = Ok sid →
  ∃ response, fst (chat_endpoint create_agent req e st) = Status200 response sid.
Proof.
  intros Hsid. destruct (ensure_memory e) as [[] | err] eqn:Hmem.
  - rewrite (chat_endpoint_processed req e st sid Hsid Hmem).
    case_memory e; eauto.
  - rewrite (chat_endpoint_memory_failed req e st sid err Hsid Hmem). simpl. eauto.
Qed.

(** After a request the session id is a key of the storage. *)
Lemma chat_endpoint_session_stored req e st sid :
  resolve_session_id req e = Ok sid →
  is_Some (session_storage (snd (chat_endpoint create_agent req e st)) !! sid).
Proof.
  intros Hsid.
  pose proof (get_or_create_session_stored sid st) as Hst.
  destruct (ensure_memory e) as [[] | err] eqn:Hmem.
  - rewrite (chat_endpoint_processed req e st sid Hsid Hmem).
    case_memory e; try apply store_history_keeps_key; simpl; rewrite Hst; eauto.
  - rewrite (chat_endpoint_memory_failed req e st sid err Hsid Hmem). simpl.
    rewrite Hst. eauto.
Qed.

End EndpointFacts.

(** * Session identifiers *)

Section UuidFacts.

Import Api.

Lemma hex_rev_length k n : length (hex_rev k n) = k.
Proof.
  revert n. induction k as [| k IH]; intros n; simpl; [done | by rewrite IH].
Qed.

Lemma string_of_list_length (l : list ascii) :
  String.length (string_of_list_ascii l) = length l.
Proof. induction l as [| c l IH]; simpl; [done | by rewrite IH]. Qed.

Lemma hex32_length n : length (hex32 n) = 32.
Proof. unfold hex32. by rewrite length_rev, hex_rev_length. Qed.

Lemma uuid_str_length n : String.length (uuid_str n) = 36.
Proof.
  unfold uuid_str. rewrite string_of_list_length.
  pose proof (hex32_length n) as H.
  repeat (rewrite ?length_app, ?length_cons, ?length_take, ?length_drop).
  rewrite H. reflexivity.
Qed.

Lemma hex_digit_inj (a b : N) :
  (a < 16)%N → (b < 16)%N → hex_digit a = hex_digit b → a = b.
Proof.
  intros Ha Hb. unfold hex_digit. intros H.
  apply N2Nat.inj.
  assert (Hi : N.to_nat a < 16) by lia. assert (Hj : N.to_nat b < 16) by lia.
  revert H Hi Hj. generalize (N.to_nat a) (N.to_nat b). clear. intros i j H Hi Hj.
  do 16 (destruct i as [| i];
         [ do 16 (destruct j as [| j]; [first [reflexivity | discriminate H] |]); lia |]).
  lia.
Qed.

(** Equal digits mean equal numbers, up to the digits that were printed. *)
Lemma hex_rev_inj k (a b : N) :
  hex_rev k a = hex_rev k b → (a mod 16 ^ N.of_nat k = b mod 16 ^ N.of_nat k)%N.
Proof.
  revert a b. induction k as [| k IH]; intros a b H.
  - simpl. by rewrite !N.mod_1_r.
  - simpl in H. injection H as Hd Hr.
    apply hex_digit_inj in Hd; [| by apply N.mod_lt | by apply N.mod_lt].
    apply IH in Hr.
    rewrite Nat2N.inj_succ, N.pow_succ_r'.
    rewrite !N.Div0.mod_mul_r. by rewrite Hd, Hr.
Qed.

Lemma uuid_format_inj (h1 h2 : list ascii) :
  length h1 = 32 → length h2 = 32 →
  (firstn 8 h1 ++ "-"%char :: firstn 4 (skipn 8 h1) ++ "-"%char
     :: firstn 4 (skipn 12 h1) ++ "-"%char :: firstn 4 (skipn 16 h1)
     ++ "-"%char :: skipn 20 h1)%list
  = (firstn 8 h2 ++ "-"%char :: firstn 4 (skipn 8 h2) ++ "-"%char
     :: firstn 4 (skipn 12 h2) ++ "-"%char :: firstn 4 (skipn 16 h2)
     ++ "-"%char :: skipn 20 h2)%list →
  h1 = h2.
Proof.
  intros H1 H2.
  do 32 (destruct h1 as [| ? h1]; [discriminate H1 |]).
  destruct h1; [| discriminate H1].
  do 32 (destruct h2 as [| ? h2]; [discriminate H2 |]).
  destruct h2; [| discriminate H2].
  clear H1 H2. simpl. intros H. injection H as ->. congruence.
Qed.

Lemma small_of_high_bits (x : N) :
  (∀ i, (128 <= i)%N → N.testbit x i = false) → (x < 2 ^ 128)%N.
Proof.
  intros H.
  assert (Hx : (x mod 2 ^ 128 = x)%N).
  { apply N.bits_inj. intros i.
    destruct (N.lt_ge_cases i 128) as [Hlt | Hge].
    - by apply N.mod_pow2_bits_low.
    - rewrite N.mod_pow2_bits_high by done. symmetry. by apply H. }
  rewrite <- Hx. by apply N.mod_lt.
Qed.

Lemma uuid4_int_small r : (uuid4_int r < 2 ^ 128)%N.
Proof.
  apply small_of_high_bits. intros i Hi. unfold uuid4_int.
  rewrite !N.lor_spec, !N.ldiff_spec, N.lor_spec, N.ldiff_spec.
  rewrite N.mod_pow2_bits_high by done.
  assert (Hc : ∀ c, (N.log2 c < 128)%N → N.testbit c i = false).
  { intros c Hc. apply N.bits_above_log2. lia. }
  rewrite !Hc; [done | vm_compute; done ..].
Qed.

Lemma uuid_str_inj a b :
  uuid_str a = uuid_str b → (a mod 2 ^ 128 = b mod 2 ^ 128)%N.
Proof.
  unfold uuid_str. intros H.
  apply (f_equal list_ascii_of_string) in H.
  rewrite !list_ascii_of_string_of_list_ascii in H.
  apply uuid_format_inj in H; [| apply hex32_length ..].
  unfold hex32 in H. apply (f_equal (@rev ascii)) in H.
  rewrite !rev_involutive in H.
  apply hex_rev_inj in H.
  change (16 ^ N.of_nat 32)%N with (2 ^ 128)%N in H.
  exact H.
Qed.

(** Two generated identifiers are equal only if their integers are. *)
Lemma uuid4_str_inj r1 r2 :
  uuid4_str r1 = uuid4_str r2 → uuid4_int r1 = uuid4_int r2.
Proof.
  intros H. unfold uuid4_str in H. apply uuid_str_inj in H.
  pose proof (uuid4_int_small r1) as H1.
  pose proof (uuid4_int_small r2) as H2.
  rewrite (N.mod_small _ _ H1), (N.mod_small _ _ H2) in H.
  exact H.
Qed.

Lemma uuid4_str_nonempty r : uuid4_str r ≠ "".
Proof.
  intros H. pose proof (uuid_str_length (uuid4_int r)) as L.
  unfold uuid4_str in H. rewrite H in L. discriminate L.
Qed.

End UuidFacts.

Lemma format_history_app (h k : list Agent.turn) :
  Agent.format_history (h ++ k)
  = (Agent.format_history h ++ Agent.format_history k)%list.
Proof. unfold Agent.format_history. by rewrite map_app, concat_app. Qed.

(** C6.  [get_or_create_session] is a total function.  A second call
    with the same key returns the list object the first call returned and
    changes nothing; a key already stored gives its stored object and leaves
    the state as it is; a key not yet stored gets a new list object, empty,
    entered under the key. *)
Theorem get_or_create_session_reuses (sid : string) (st : Api.state) :
  let '(l1, st1) := Api.get_or_create_session sid st in
  Api.get_or_create_session sid st1 = (l1, st1)
  ∧ Api.session_storage st1 !! sid = Some l1
  ∧ match Api.session_storage st !! sid with
    | Some l => l1 = l ∧ st1 = st
    | None =>
        Api.heap st !! l1 = None
        ∧ Api.heap st1 = (Api.heap st ++ [[]])%list
        ∧ Api.heap st1 !! l1 = Some []
        ∧ Api.session_storage st1 = <[sid := l1]> (Api.session_storage st)
        ∧ Api.agent st1 = Api.agent st
    end.
Proof.
  pose proof (get_or_create_session_stored sid st) as Hst.
  unfold Api.get_or_create_session in *.
  destruct (Api.session_storage st !! sid) as [l |] eqn:Hl; simpl in *.
  - rewrite Hl. done.
  - rewrite Hst. repeat split.
    + apply lookup_ge_None. lia.
    + apply list_lookup_middle. done.
Qed.

(** C7.  A request whose session id resolves is answered with status 200
    and that id, whatever fails afterwards: the response is the apology
    when preparing or reading the executor's memory raises, and the text of
    [chat] otherwise, never empty.  Status 500 is returned exactly when
    resolving the session id raises, with the text of that failure as
    detail.  A non-empty id sent by the caller always resolves to itself. *)
Theorem endpoint_status (create_agent : result Agent.executor)
    (req : Api.ChatRequest) (e : Api.env) (st : Api.state) :
  let out := fst (Api.chat_endpoint create_agent req e st) in
  match Api.resolve_session_id req e with
  | Raise detail => Api.chat_endpoint create_agent req e st = (Api.Status500 detail, st)
  | Ok sid =>
      ∃ response,
        out = Api.Status200 response sid
        ∧ response ≠ ""
        ∧ match Api.ensure_memory e, Api.memory_messages e with
          | Raise _, _ | Ok _, Some (Raise _) => response = Agent.msg_sorry
          | Ok _, _ =>
              response
              = fst (Agent.chat create_agent (Api.message req)
                       (Some (Api.invoke e)) (Api.agent st))
          end
  end
  ∧ (∀ detail, out = Api.Status500 detail ↔ Api.resolve_session_id req e = Raise detail)
  ∧ (∀ s, Api.session_id req = Some s → s ≠ "" → Api.resolve_session_id req e = Ok s).
Proof.
  intros out. subst out. split; [| split].
  - destruct (Api.resolve_session_id req e) as [sid | detail] eqn:Hsid.
    2: { by apply chat_endpoint_unresolved. }
    destruct (Api.ensure_memory e) as [[] | err] eqn:Hmem.
    + rewrite (chat_endpoint_processed create_agent req e st sid Hsid Hmem).
      pose proof (chat_reply_nonempty create_agent (Api.message req)
                    (Some (Api.invoke e)) (Api.agent st)) as Hne.
      case_memory e; eauto.
    + rewrite (chat_endpoint_memory_failed create_agent req e st sid err Hsid Hmem).
      simpl. eauto.
  - intros detail.
    destruct (Api.resolve_session_id req e) as [sid | d] eqn:Hsid.
    + split; [| done].
      destruct (Api.ensure_memory e) as [[] | err] eqn:Hmem.
      * rewrite (chat_endpoint_processed create_agent req e st sid Hsid Hmem).
        by case_memory e.
      * by rewrite (chat_endpoint_memory_failed create_agent req e st sid err Hsid Hmem).
    + rewrite (chat_endpoint_unresolved create_agent req e st d Hsid). simpl.
      split; congruence.
  - intros s Hs Hne. unfold Api.resolve_session_id. rewrite Hs.
    apply eqb_false_neq in Hne. by rewrite Hne.
Qed.

(** C5.  Whenever the endpoint reaches [chat], the history handed to the
    external call is the formatted global [chat_history] of module agent,
    and the new agent state is the one [chat] computes from the old agent
    state and the message alone.  Neither depends on the session id, the
    session storage or the stored session lists: two requests with the same
    message leave the same agent state whatever their sessions are. *)
Theorem endpoint_forwards_global_history (create_agent : result Agent.executor)
    (req : Api.ChatRequest) (e : Api.env) (st : Api.state) :
  let st' := snd (Api.chat_endpoint create_agent req e st) in
  match Api.resolve_session_id req e, Api.ensure_memory e with
  | Ok _, Ok _ =>
      Api.agent st'
      = snd (Agent.chat create_agent (Api.message req) (Some (Api.invoke e)) (Api.agent st))
      ∧ Agent.invocations (Api.agent st')
        = (Agent.invocations (Api.agent st)
           ++ [{| Agent.input := Api.message req;
                  Agent.input_history :=
                    Agent.format_history (Agent.chat_history (Api.agent st)) |}])%list
      ∧ ∀ (sid0 : string) (hp : list (list Agent.turn)) (ss : gmap string nat),
          sid0 ≠ "" →
          Api.agent
            (snd (Api.chat_endpoint create_agent
                    {| Api.message := Api.message req; Api.session_id := Some sid0 |} e
                    {| Api.agent := Api.agent st; Api.heap := hp;
                       Api.session_storage := ss |}))
          = Api.agent st'
  | _, _ => Api.agent st' = Api.agent st
  end.
Proof.
  intros st'. subst st'.
  destruct (Api.resolve_session_id req e) as [sid | detail] eqn:Hsid.
  2: { by rewrite (chat_endpoint_unresolved create_agent req e st detail Hsid). }
  destruct (Api.ensure_memory e) as [[] | err] eqn:Hmem.
  2: { rewrite (chat_endpoint_memory_failed create_agent req e st sid err Hsid Hmem).
       apply get_or_create_session_agent. }
  rewrite (chat_endpoint_agent create_agent req e st sid Hsid Hmem).
  split; [done |]. split.
  - rewrite (chat_with_agent create_agent _ _ (Api.invoke e)); done.
  - intros sid0 hp ss Hne.
    rewrite (chat_endpoint_agent create_agent _ e _ sid0); [done | | done].
    unfold Api.resolve_session_id. simpl.
    apply eqb_false_neq in Hne. by rewrite Hne.
Qed.

(** * The weather tool *)

Section WeatherFacts.

Import Tools.

Variable requests_get : string -> http_outcome.
Variable type_error : string -> bool -> string.
Variable repr_container : json -> string.

(** A well-formed payload is read field by field. *)
Lemma weather_sentence_well_formed city desc temp feels hum :
  weather_sentence type_error repr_container city (Ok (wttr_payload desc temp feels hum))
  = Ok ("Weather in " ++ city ++ ": " ++ desc ++ ", Temperature: " ++ temp
        ++ "°C (feels like " ++ feels ++ "°C), Humidity: " ++ hum ++ "%").
Proof. reflexivity. Qed.

Lemma get_weather_ok city body s :
  requests_get (wttr_url city) = HttpResponse 200 body →
  weather_sentence type_error repr_container city body = Ok s →
  get_weather requests_get type_error repr_container city = s.
Proof.
  intros Hget Hs. unfold get_weather.
  rewrite Hget. simpl. by rewrite Hs.
Qed.

Lemma get_weather_bad_status city status body :
  requests_get (wttr_url city) = HttpResponse status body →
  status ≠ 200%Z →
  get_weather requests_get type_error repr_container city
  = "Could not fetch weather for " ++ city.
Proof.
  intros Hget Hst. unfold get_weather. rewrite Hget.
  apply Z.eqb_neq in Hst. by rewrite Hst.
Qed.

Lemma get_weather_raised city e :
  requests_get (wttr_url city) = HttpRaise e →
  get_weather requests_get type_error repr_container city
  = "Error getting weather: " ++ e.
Proof.
  intros Hget. unfold get_weather. by rewrite Hget.
Qed.

Lemma get_weather_bad_body city body e :
  requests_get (wttr_url city) = HttpResponse 200 body →
  weather_sentence type_error repr_container city body = Raise e →
  get_weather requests_get type_error repr_container city
  = "Error getting weather: " ++ e.
Proof.
  intros Hget Hs. unfold get_weather.
  rewrite Hget. simpl. by rewrite Hs.
Qed.

End WeatherFacts.

(** C8.  With status 200 and the well-formed payload for Mumbai (Sunny,
    30, 33, 40) the tool returns exactly the sentence of the specification,
    and more generally the sentence built from the four fields.  For every
    city, a status other than 200 (every non-2xx status among them) gives
    "Could not fetch weather for <city>", an exception raised by the request
    gives "Error getting weather: <exception text>", and so does a body that
    cannot be decoded or lacks a field: the tool always returns a text. *)
Theorem get_weather_contract (requests_get : string -> Tools.http_outcome)
    (type_error : string -> bool -> string)
    (repr_container : Tools.json -> string) :
  let get_weather := Tools.get_weather requests_get type_error repr_container in
  (requests_get "https://wttr.in/Mumbai?format=j1"
     = Tools.HttpResponse 200 (Ok (Tools.wttr_payload "Sunny" "30" "33" "40")) →
   get_weather "Mumbai"
   = "Weather in Mumbai: Sunny, Temperature: 30°C (feels like 33°C), Humidity: 40%")
  ∧ (∀ city desc temp feels hum,
       requests_get (Tools.wttr_url city)
         = Tools.HttpResponse 200 (Ok (Tools.wttr_payload desc temp feels hum)) →
       get_weather city
       = "Weather in " ++ city ++ ": " ++ desc ++ ", Temperature: " ++ temp
         ++ "°C (feels like " ++ feels ++ "°C), Humidity: " ++ hum ++ "%")
  ∧ (∀ city status body,
       requests_get (Tools.wttr_url city) = Tools.HttpResponse status body →
       status ≠ 200%Z →
       get_weather city = "Could not fetch weather for " ++ city)
  ∧ (∀ city e,
       requests_get (Tools.wttr_url city) = Tools.HttpRaise e →
       get_weather city = "Error getting weather: " ++ e)
  ∧ (∀ city body,
       requests_get (Tools.wttr_url city) = Tools.HttpResponse 200 body →
       match Tools.weather_sentence type_error repr_container city body with
       | Ok s => get_weather city = s
       | Raise e => get_weather city = "Error getting weather: " ++ e
       end).
Proof.
  intros get_weather. subst get_weather. repeat split.
  - intros H.
    by apply (get_weather_ok requests_get type_error repr_container "Mumbai" _ _ H).
  - intros city desc temp feels hum H.
    apply (get_weather_ok _ _ _ city _ _ H), weather_sentence_well_formed.
  - apply get_weather_bad_status.
  - apply get_weather_raised.
  - intros city body H.
    destruct (Tools.weather_sentence _ _ city body) as [s | e] eqn:Hs.
    + by apply (get_weather_ok _ _ _ city _ _ H).
    + by apply (get_weather_bad_body _ _ _ city _ _ H).
Qed.

Lemma get_weather_contract_witness :
  let provider (url : string) : Tools.http_outcome :=
    if String.eqb url "https://wttr.in/Mumbai?format=j1"
    then Tools.HttpResponse 200 (Ok (Tools.wttr_payload "Sunny" "30" "33" "40"))
    else if String.eqb url "https://wttr.in/Atlantis?format=j1"
    then Tools.HttpResponse 404 (Raise "Expecting value: line 1 column 1 (char 0)")
    else Tools.HttpRaise "timed out" in
  let get_weather := Tools.get_weather provider (fun _ _ => "") (fun _ => "") in
  get_weather "Mumbai"
  = "Weather in Mumbai: Sunny, Temperature: 30°C (feels like 33°C), Humidity: 40%"
  ∧ get_weather "Atlantis" = "Could not fetch weather for Atlantis"
  ∧ get_weather "Pune" = "Error getting weather: timed out".
Proof.
  intros provider get_weather.
  pose proof (get_weather_contract provider (fun _ _ => "") (fun _ => ""))
    as (Hmumbai & _ & Hstatus & Hraise & _).
  split; [by apply Hmumbai |]. split.
  - by apply (Hstatus "Atlantis" 404%Z
                (Raise "Expecting value: line 1 column 1 (char 0)")).
  - by apply (Hraise "Pune" "timed out").
Defined.



(** * The clock tool *)

Section ClockFacts.

Import Tools.

(** Month, day, hour, minute and second print as two digits. *)
Lemma zfill_two_digits (n : Z) :
  (0 <= n <= 99)%Z → two_digit_text (zfill 2 (dec n)) = true.
Proof.
  intros Hn.
  assert (Hall : forallb (fun k => two_digit_text (zfill 2 (dec (Z.of_nat k))))
                   (seq 0 100) = true)
    by (vm_compute; reflexivity).
  rewrite forallb_forall in Hall.
  specialize (Hall (Z.to_nat n)). rewrite Z2Nat.id in Hall by lia.
  apply Hall, in_seq. lia.
Qed.

(** A year from 1000 to 9999 prints as four digits; a padded year does
    from year 1 on. *)
Lemma year_four_digits (pad : bool) (y : Z) :
  (1 <= y <= 9999)%Z → pad = true ∨ (1000 <= y)%Z →
  four_digit_text (year_text pad y) = true.
Proof.
  intros Hy Hpad.
  assert (Hall : forallb
            (fun k => four_digit_text (zfill 4 (dec (Z.of_nat k)))
                      && ((k <? 10 * 100) || four_digit_text (dec (Z.of_nat k))))
            (seq 0 (100 * 100)) = true)
    by (vm_compute; reflexivity).
  rewrite forallb_forall in Hall.
  specialize (Hall (Z.to_nat y)). rewrite Z2Nat.id in Hall by lia.
  assert (Hin : In (Z.to_nat y) (seq 0 (100 * 100))) by (apply in_seq; lia).
  apply Hall in Hin. apply andb_prop in Hin as [Hpadded Hplain].
  unfold year_text. destruct pad; [done |].
  destruct Hpad as [Hpad | Hbig]; [done |].
  apply orb_prop in Hplain as [Hsmall | Hplain]; [| done].
  apply Nat.ltb_lt in Hsmall. lia.
Qed.

(** The calendar fields of the days from 0001-01-01 to 9999-12-31. *)
Lemma civil_from_days_range (days : Z) :
  (-719162 <= days <= 2932896)%Z →
  let '(y, m, d) := civil_from_days days in
  (1 <= y <= 9999 ∧ 1 <= m <= 12 ∧ 1 <= d <= 31)%Z.
Proof.
  intros H. unfold civil_from_days.
  repeat match goal with
         | |- context [(?a <? ?b)%Z] => destruct (Z.ltb_spec a b)
         | |- context [(?a <=? ?b)%Z] => destruct (Z.leb_spec a b)
         end;
    Z.to_euclidean_division_equations; lia.
Qed.

Lemma in_range_bounds (dt : Z) :
  in_range dt = true ↔ (-62135596800 <= dt <= 253402300799)%Z.
Proof.
  unfold in_range, min_datetime, max_datetime.
  rewrite andb_true_iff, !Z.leb_le. done.
Qed.

Lemma strftime_ist_matches (pad : bool) (dt : Z) :
  in_range dt = true →
  pad = true ∨ (1000 <= year dt)%Z →
  matches_pattern (strftime_ist pad dt) = true.
Proof.
  intros H Hpad. apply in_range_bounds in H.
  assert (Hdays : (-719162 <= dt / 86400 <= 2932896)%Z)
    by (Z.to_euclidean_division_equations; lia).
  pose proof (civil_from_days_range _ Hdays) as Hc.
  revert Hpad. unfold strftime_ist, year, month, day, hour, minute, second.
  destruct (civil_from_days (dt / 86400)) as [[y m] d]. simpl fst; simpl snd.
  intros Hpad. destruct Hc as (Hy & Hm & Hd).
  pose proof (year_four_digits pad y Hy Hpad) as Ty.
  pose proof (zfill_two_digits m ltac:(lia)) as Tm.
  pose proof (zfill_two_digits d ltac:(lia)) as Td.
  pose proof (zfill_two_digits ((dt mod 86400) / 3600)%Z
                ltac:(Z.to_euclidean_division_equations; lia)) as Th.
  pose proof (zfill_two_digits (((dt mod 86400) mod 3600) / 60)%Z
                ltac:(Z.to_euclidean_division_equations; lia)) as Tmi.
  pose proof (zfill_two_digits (dt mod 60)%Z
                ltac:(Z.to_euclidean_division_equations; lia)) as Ts.
  revert Ty Tm Td Th Tmi Ts.
  generalize (year_text pad y) (zfill 2 (dec m)) (zfill 2 (dec d))
    (zfill 2 (dec ((dt mod 86400) / 3600)%Z))
    (zfill 2 (dec (((dt mod 86400) mod 3600) / 60)%Z))
    (zfill 2 (dec (dt mod 60)%Z)).
  intros sy sm sd sh smi ss Ty Tm Td Th Tmi Ts.
  destruct sy as [| y1 [| y2 [| y3 [| y4 [| ? ?]]]]]; try discriminate Ty.
  destruct sm as [| m1 [| m2 [| ? ?]]]; try discriminate Tm.
  destruct sd as [| d1 [| d2 [| ? ?]]]; try discriminate Td.
  destruct sh as [| h1 [| h2 [| ? ?]]]; try discriminate Th.
  destruct smi as [| i1 [| i2 [| ? ?]]]; try discriminate Tmi.
  destruct ss as [| s1 [| s2 [| ? ?]]]; try discriminate Ts.
  simpl in Ty, Tm, Td, Th, Tmi, Ts.
  repeat match goal with
         | H : _ && _ = true |- _ => apply andb_prop in H as [? ?]
         end.
  cbv -[is_digit].
  repeat match goal with
         | H : is_digit _ = true |- _ => rewrite H; clear H
         end.
  reflexivity.
Qed.

(** Since 15 October 1945 the zone has been five and a half hours ahead. *)
Lemma kolkata_utcoffset_since_1945 (t : Z) :
  (-764145000 <= t)%Z → kolkata_utcoffset t = ist_delta.
Proof.
  intros H. unfold kolkata_utcoffset.
  repeat match goal with
         | |- context [(?a <? ?b)%Z] => destruct (Z.ltb_spec a b); [lia |]
         end.
  reflexivity.
Qed.

(** The tool, once the zone lookup is out of the way. *)
Lemma get_current_datetime_offset (pad zi : bool) (lookup : result unit)
    (range_error : Z -> string) (t : Z) :
  (if zi then lookup else Ok ()) = Ok () →
  get_current_datetime pad zi lookup range_error t
  = if in_range t
    then let local := (t + if zi then kolkata_utcoffset t else ist_delta)%Z in
         if in_range local then strftime_ist pad local
         else "Error getting current time: date value out of range"
    else "Error getting current time: " ++ range_error t.
Proof.
  intros Hl. unfold get_current_datetime, current_now, datetime_now,
    datetime_utcnow, datetime_add.
  destruct zi; [rewrite Hl |]; simpl;
    destruct (in_range t); simpl; try done;
    by destruct (in_range _).
Qed.

End ClockFacts.

(** C9 does not hold as written.  With the [zoneinfo] module imported and
    the zone data missing, the tool returns the text of the failure: it
    neither falls back to the offset arithmetic (which would have given the
    time) nor produces the pattern.  The offset arithmetic is not the
    zone's reading at every instant either: in 1943 the zone was six and a
    half hours ahead.  And where [strftime] does not pad the year, an
    instant in the year 702 prints with three digits. *)
Lemma missing_zone_data_is_not_a_fallback :
  let missing : result unit := Raise "'No time zone found with key Asia/Kolkata'" in
  let range_error : Z -> string := fun _ => "year 0 is out of range" in
  let tool := Tools.get_current_datetime false in
  tool true missing range_error 1762261200%Z
  = "Error getting current time: 'No time zone found with key Asia/Kolkata'"
  ∧ Tools.matches_pattern (tool true missing range_error 1762261200%Z) = false
  ∧ tool false missing range_error 1762261200%Z = "2025-11-04 18:30:00 (IST)"
  ∧ tool true (Ok ()) range_error (-840000000)%Z = "1943-05-21 01:10:00 (IST)"
  ∧ tool false (Ok ()) range_error (-840000000)%Z = "1943-05-21 00:10:00 (IST)"
  ∧ tool true (Ok ()) range_error (-40000000000)%Z = "702-06-15 06:46:48 (IST)"
  ∧ Tools.matches_pattern (tool true (Ok ()) range_error (-40000000000)%Z) = false.
Proof. vm_compute. done. Qed.

(** C9, amended.  Called at any instant [t] of the POSIX clock, the clock
    tool returns the wall-clock reading of the zone Asia/Kolkata at [t]
    (five and a half hours ahead of UTC at every instant since 15 October
    1945) printed as [YYYY-MM-DD HH:MM:SS (IST)]: the pattern is matched
    for every reading with a year from 1000 on, and for earlier years where
    [strftime] pads the year.  The offset arithmetic of five and a half
    hours replaces the zone only when the [zoneinfo] module could not be
    imported; since 15 October 1945 both give the same text.  When a
    library call raises (the zone lookup fails, or the reading lies outside
    the years 1 to 9999) the tool returns "Error getting current time: "
    followed by the text of the exception. *)
Theorem clock_output (pad_years zoneinfo_imported : bool)
    (zone_lookup : result unit) (range_error : Z -> string) (t : Z) :
  let tool := Tools.get_current_datetime pad_years in
  let out := tool zoneinfo_imported zone_lookup range_error t in
  let local :=
    (t + if zoneinfo_imported then Tools.kolkata_utcoffset t else Tools.ist_delta)%Z in
  match (if zoneinfo_imported then zone_lookup else Ok ()) with
  | Raise e => out = "Error getting current time: " ++ e
  | Ok _ =>
      if Tools.in_range t
      then if Tools.in_range local
           then out = Tools.strftime_ist pad_years local
                ∧ (pad_years = true ∨ (1000 <= Tools.year local)%Z →
                   Tools.matches_pattern out = true)
           else out = "Error getting current time: date value out of range"
      else out = "Error getting current time: " ++ range_error t
  end
  ∧ ((-764145000 <= t)%Z →
     Tools.kolkata_utcoffset t = Tools.ist_delta
     ∧ tool true (Ok ()) range_error t = tool false zone_lookup range_error t).
Proof.
  intros tool out local. subst tool out local. split.
  - destruct (if zoneinfo_imported then zone_lookup else Ok ()) as [[] | e] eqn:Hl.
    + rewrite (get_current_datetime_offset _ _ _ _ _ Hl). cbv zeta.
      destruct (Tools.in_range t); [| done].
      destruct (Tools.in_range _) eqn:Hr; [| done].
      split; [done |]. intros Hpad. by apply strftime_ist_matches.
    + destruct zoneinfo_imported; [| done]. by rewrite Hl.
  - intros Ht. pose proof (kolkata_utcoffset_since_1945 t Ht) as Hoff.
    split; [done |].
    rewrite !get_current_datetime_offset by done. cbv zeta. by rewrite Hoff.
Qed.

Lemma clock_output_witness :
  let tool := Tools.get_current_datetime false in
  let re : Z -> string := fun _ => "year 10000 is out of range" in
  (-764145000 <= 1762261200)%Z
  ∧ tool true (Ok ()) re 1762261200%Z = Tools.strftime_ist false (1762261200 + 19800)%Z
  ∧ Tools.matches_pattern (tool true (Ok ()) re 1762261200%Z) = true
  ∧ tool true (Ok ()) re 1762261200%Z = tool false (Raise "no zone") re 1762261200%Z.
Proof.
  intros tool re. split; [lia |].
  destruct (clock_output false true (Ok ()) re 1762261200%Z) as [[H1 H2] H3].
  split; [exact H1 |]. split.
  - apply H2. right. vm_compute. discriminate.
  - apply (H3 ltac:(lia)).
Defined.

(** * Blank input *)

Section BlankFacts.

Import Text.

(** The first byte of a whitespace character tells its width. *)
Lemma ws1_excludes a b c : ws1 a = true → ws2 a b = false ∧ ws3 a b c = false.
Proof.
  unfold ws1, ws2, ws3. generalize (code a) (code b) (code c). intros x y z H.
  assert (Hx : x ≤ 32).
  { apply orb_prop in H as [H | H]; apply andb_prop in H as [_ H];
      apply Nat.leb_le in H; lia. }
  destruct (Nat.eqb_spec x 194), (Nat.eqb_spec x 225), (Nat.eqb_spec x 226),
    (Nat.eqb_spec x 227); first [lia | done].
Qed.

Lemma ws2_excludes a b c : ws2 a b = true → ws3 a b c = false.
Proof.
  unfold ws2, ws3. generalize (code a) (code b) (code c). intros x y z H.
  apply andb_prop in H as [H _]. apply Nat.eqb_eq in H. by subst x.
Qed.

Lemma lstrip_blank (s : list ascii) : blank_list s = true → lstrip s = [].
Proof.
  remember (length s) as n eqn:Hn. revert s Hn.
  induction n as [n IH] using lt_wf_ind. intros s -> H.
  destruct s as [| a t1]; [done |].
  cbn [blank_list lstrip] in *.
  destruct (ws1 a) eqn:E1.
  - apply (IH (length t1)); [simpl; lia | done |].
    destruct t1 as [| b t2]; [by rewrite andb_true_l, orb_false_r in H |].
    destruct (ws1_excludes a b b E1) as [E2 _]. rewrite E2 in H.
    destruct t2 as [| c t3]; [by rewrite andb_true_l, !orb_false_r in H |].
    destruct (ws1_excludes a b c E1) as [_ E3]. rewrite E3 in H.
    by rewrite andb_true_l, !orb_false_r in H.
  - rewrite andb_false_l, orb_false_l in H.
    destruct t1 as [| b t2]; [done |].
    destruct (ws2 a b) eqn:E2.
    + apply (IH (length t2)); [simpl; lia | done |].
      destruct t2 as [| c t3]; [by rewrite andb_true_l, orb_false_r in H |].
      rewrite (ws2_excludes a b c E2) in H.
      by rewrite andb_true_l, orb_false_r in H.
    + rewrite andb_false_l, orb_false_l in H.
      destruct t2 as [| c t3]; [done |].
      destruct (ws3 a b c) eqn:E3; [| done].
      apply (IH (length t3)); [simpl; lia | done | done].
Qed.

(** Stripping a blank text leaves nothing. *)
Lemma strip_blank (s : string) : blank s = true → strip s = "".
Proof.
  unfold blank, strip. intros H. by rewrite (lstrip_blank _ H).
Qed.

End BlankFacts.

(** C10.  A line that is empty or made of whitespace only changes nothing
    in either caller: the console loop goes on with the state it had, and
    the page leaves its messages and the agent state as they were.  The
    stored history gets no turn and the external call is not made, its log
    of invocations being part of the unchanged state. *)
Theorem blank_input_is_skipped (create_agent : result Agent.executor)
    (time : nat -> Z) (line : string) (agent : Agent.executor)
    (agent_exec : result Agent.executor) (submit : bool)
    (st : Agent.state) (page : App.state)
    (Hblank : Text.blank line = true) :
  Console.step create_agent (Console.Line line) agent st = Console.Running st
  ∧ App.on_submit create_agent time submit line agent_exec page = page.
Proof.
  pose proof (strip_blank line Hblank) as Hstrip. split.
  - unfold Console.step. by rewrite Hstrip.
  - unfold App.on_submit. rewrite Hstrip. simpl.
    by rewrite andb_false_r.
Qed.

Lemma blank_input_is_skipped_witness :
  let line := String (ascii_of_nat 9) "    " ++ String (ascii_of_nat 194) (String (ascii_of_nat 160) " ") in
  let echo : Agent.executor :=
    fun d => Ok (Agent.RespDict (Some (Agent.PyStr ("re: " ++ Agent.input d)))) in
  let page := {| App.messages := []; App.agent := Agent.initial_state |} in
  Text.blank line = true
  ∧ Console.step (Raise "no key") (Console.Line line) echo Agent.initial_state
    = Console.Running Agent.initial_state
  ∧ App.on_submit (Raise "no key") (fun _ => 0%Z) true line (Ok echo) page = page.
Proof.
  intros line echo page. split; [reflexivity |].
  apply (blank_input_is_skipped (Raise "no key") (fun _ => 0%Z) line echo
           (Ok echo) true Agent.initial_state page).
  reflexivity.
Defined.

(** * Further properties *)

Section ExchangeFacts.

Import Agent.

Variable create_agent : result executor.

Lemma flat_map_turns_length ps :
  length (flat_map Exchange.turns ps) = 2 * length ps.
Proof. induction ps as [| p ps IH]; simpl; lia. Qed.

Lemma drop_flat_map_turns k ps :
  drop (2 * k) (flat_map Exchange.turns ps) = flat_map Exchange.turns (drop k ps).
Proof.
  revert ps. induction k as [| k IH]; intros ps; [done |].
  destruct ps as [| p ps]; [done |].
  replace (2 * S k) with (S (S (2 * k))) by lia. simpl. apply IH.
Qed.

Lemma keep_last_flat_map_turns n ps :
  keep_last (2 * n) (flat_map Exchange.turns ps)
  = flat_map Exchange.turns (keep_last n ps).
Proof.
  unfold keep_last. rewrite flat_map_turns_length.
  replace (2 * length ps - 2 * n) with (2 * (length ps - n)) by lia.
  apply drop_flat_map_turns.
Qed.

Lemma format_history_turns ps :
  Forall (fun p => recordable (snd p) = true) ps →
  format_history (flat_map Exchange.turns ps) = flat_map Exchange.messages ps.
Proof.
  induction 1 as [| [u o] ps Hp _ IH]; [done |].
  unfold format_history in *. simpl. rewrite IH.
  unfold recordable in Hp. simpl in Hp.
  apply andb_prop in Hp as [Hne _]. by rewrite Hne.
Qed.

Lemma format_turn_length t : length (format_turn t) ≤ 1.
Proof.
  destruct t as [role c]. unfold format_turn.
  destruct (String.eqb role "human"); [simpl; lia |].
  destruct (_ && _); simpl; lia.
Qed.

Lemma format_history_length h : length (format_history h) ≤ length h.
Proof.
  unfold format_history. induction h as [| t h IH]; [done |].
  cbn [map concat length]. rewrite length_app.
  pose proof (format_turn_length t). lia.
Qed.

(** Everything recorded is a sequence of whole exchanges. *)
Lemma transcript_exchanges_chat u ex st ps :
  transcript st = flat_map Exchange.turns ps →
  Forall (fun p => recordable (snd p) = true) ps →
  ∃ ps', transcript (snd (chat create_agent u ex st)) = flat_map Exchange.turns ps'
         ∧ Forall (fun p => recordable (snd p) = true) ps'.
Proof.
  intros Ht Hps.
  destruct (acquire create_agent ex) as [a | e] eqn:Ha.
  - rewrite (chat_with_agent create_agent u ex a st Ha). simpl.
    destruct (recordable _) eqn:Hrec.
    + exists (ps ++ [(u, invoke_and_extract a
                        {| input := u;
                           input_history := format_history (chat_history st) |})])%list.
      split.
      * by rewrite flat_map_app, Ht.
      * apply Forall_app. split; [done |]. by constructor.
    + exists ps. by rewrite app_nil_r.
  - rewrite (chat_without_agent create_agent u ex e st Ha). eauto.
Qed.

Lemma transcript_exchanges_run calls st ps :
  transcript st = flat_map Exchange.turns ps →
  Forall (fun p => recordable (snd p) = true) ps →
  ∃ ps', transcript (run_chats create_agent calls st) = flat_map Exchange.turns ps'
         ∧ Forall (fun p => recordable (snd p) = true) ps'.
Proof.
  revert st ps. induction calls as [| c calls IH]; intros st ps Ht Hps; [eauto |].
  simpl. destruct (transcript_exchanges_chat (fst c) (snd c) st ps Ht Hps)
    as (ps' & Ht' & Hps').
  by apply (IH _ ps').
Qed.

(** A state whose history is the tail of whole exchanges. *)
Lemma history_exchanges st ps :
  history_invariant st →
  transcript st = flat_map Exchange.turns ps →
  Forall (fun p => recordable (snd p) = true) ps →
  ∃ qs, chat_history st = flat_map Exchange.turns qs
        ∧ length qs ≤ 10
        ∧ Forall (fun p => recordable (snd p) = true) qs.
Proof.
  intros Hinv Ht Hps. exists (keep_last 10 ps). split; [| split].
  - rewrite Hinv, Ht. apply (keep_last_flat_map_turns 10).
  - rewrite keep_last_length. lia.
  - unfold keep_last. by apply Forall_drop.
Qed.

End ExchangeFacts.

(** X1.  After any sequence of [chat] calls from the empty history, the
    stored history is made of whole exchanges: at most ten pairs of a human
    turn followed by an assistant turn, whose assistant text is neither
    empty nor the sentinel; trimming never cuts a pair in two.  Formatting
    it for the model loses nothing: each pair becomes a human message
    followed by an assistant message. *)
Theorem history_is_whole_exchanges (create_agent : result Agent.executor)
    (calls : list (string * option Agent.executor)) :
  let st := Agent.run_chats create_agent calls Agent.initial_state in
  ∃ ps : list (string * string),
    Agent.chat_history st = flat_map Exchange.turns ps
    ∧ length ps ≤ 10
    ∧ length (Agent.chat_history st) = 2 * length ps
    ∧ Forall (fun p => snd p ≠ "" ∧ snd p ≠ Agent.sentinel) ps
    ∧ Agent.format_history (Agent.chat_history st) = flat_map Exchange.messages ps.
Proof.
  intros st.
  destruct (transcript_exchanges_run create_agent calls Agent.initial_state [])
    as (ps & Ht & Hps); [done | done |].
  destruct (history_exchanges (Agent.run_chats create_agent calls Agent.initial_state) ps)
    as (qs & Hh & Hlen & Hqs); [| done | done |].
  { apply history_invariant_run, history_invariant_initial. }
  exists qs. subst st. rewrite Hh.
  split; [done |]. split; [done |]. split; [apply flat_map_turns_length |].
  split; [| by apply format_history_turns].
  eapply Forall_impl; [exact Hqs |]. intros [u o] H. simpl in *.
  unfold Agent.recordable in H. apply andb_prop in H as [H1 H2].
  apply negb_true_iff in H1, H2. by rewrite !eqb_false_neq in *.
Qed.

Section RunFacts.

Import Agent.

Variable create_agent : result executor.

(** What one call adds to the log of invocations. *)
Lemma chat_invocations u ex st :
  invocations (snd (chat create_agent u ex st))
  = (invocations st
     ++ if Exchange.available create_agent ex
        then [{| input := u; input_history := format_history (chat_history st) |}]
        else [])%list.
Proof.
  unfold Exchange.available.
  destruct (acquire create_agent ex) as [a | e] eqn:Ha.
  - by rewrite (chat_with_agent create_agent u ex a st Ha).
  - rewrite (chat_without_agent create_agent u ex e st Ha). simpl.
    by rewrite app_nil_r.
Qed.

Lemma chat_keeps_cap u ex st :
  length (chat_history st) ≤ 20 →
  length (chat_history (snd (chat create_agent u ex st))) ≤ 20.
Proof.
  intros H. destruct (acquire create_agent ex) as [a | e] eqn:Ha.
  - rewrite (chat_with_agent create_agent u ex a st Ha). simpl.
    rewrite keep_last_length. lia.
  - by rewrite (chat_without_agent create_agent u ex e st Ha).
Qed.

Lemma run_chats_inputs calls st :
  map input (invocations (run_chats create_agent calls st))
  = (map input (invocations st)
     ++ map fst (List.filter (fun c => Exchange.available create_agent (snd c)) calls))%list.
Proof.
  revert st. induction calls as [| [u ex] calls IH]; intros st; simpl.
  - by rewrite app_nil_r.
  - rewrite IH, chat_invocations, map_app. simpl.
    destruct (Exchange.available create_agent ex); simpl.
    + by rewrite <- app_assoc.
    + by rewrite app_nil_r.
Qed.

Lemma run_chats_bounded calls st :
  length (chat_history st) ≤ 20 →
  Forall (fun d => length (input_history d) ≤ 20) (invocations st) →
  Forall (fun d => length (input_history d) ≤ 20)
    (invocations (run_chats create_agent calls st)).
Proof.
  revert st. induction calls as [| [u ex] calls IH]; intros st Hlen Hall; [done |].
  simpl. apply IH; [by apply chat_keeps_cap |].
  rewrite chat_invocations. apply Forall_app. split; [done |].
  destruct (Exchange.available create_agent ex); [| done].
  constructor; [| done]. simpl.
  pose proof (format_history_length (chat_history st)). lia.
Qed.

End RunFacts.

(** X2.  Over any sequence of [chat] calls, the external call is made once
    for each call that has an executor (passed in, or created without
    error) and for no other, in the order of the calls, and each time with
    the user's text as written. *)
Theorem messages_reach_model_in_order (create_agent : result Agent.executor)
    (calls : list (string * option Agent.executor)) :
  let st := Agent.run_chats create_agent calls Agent.initial_state in
  map Agent.input (Agent.invocations st)
  = map fst (List.filter (fun c => Exchange.available create_agent (snd c)) calls)
  ∧ length (Agent.invocations st) ≤ length calls.
Proof.
  intros st. subst st.
  pose proof (run_chats_inputs create_agent calls Agent.initial_state) as H.
  simpl in H. split; [done |].
  apply (f_equal length) in H. rewrite !length_map in H. rewrite H.
  apply filter_length_le.
Qed.

(** X3.  No invocation made during any sequence of [chat] calls carries
    more than 20 messages of history. *)
Theorem forwarded_history_bounded (create_agent : result Agent.executor)
    (calls : list (string * option Agent.executor)) :
  Forall (fun d => length (Agent.input_history d) ≤ 20)
    (Agent.invocations (Agent.run_chats create_agent calls Agent.initial_state)).
Proof. apply run_chats_bounded; simpl; [lia | done]. Qed.

(** X4.  The replacement texts are recorded like any answer.  When the
    external call raises, returns [None], returns a dict without a usable
    output, or returns an object whose [str] raises, [chat] returns the
    corresponding text and appends the user turn and that text as the
    assistant turn, so the next call replays it to the model. *)
Theorem fallback_reply_is_recorded (create_agent : result Agent.executor)
    (u : string) (a : Agent.executor) (st : Agent.state) :
  let d := {| Agent.input := u;
              Agent.input_history := Agent.format_history (Agent.chat_history st) |} in
  let recorded (text : string) :=
    Agent.chat create_agent u (Some a) st
    = (text,
       {| Agent.chat_history :=
            keep_last 20 (Agent.chat_history st ++ Exchange.turns (u, text));
          Agent.invocations := (Agent.invocations st ++ [d])%list;
          Agent.transcript := (Agent.transcript st ++ Exchange.turns (u, text))%list |}) in
  (∀ e, a d = Raise e → recorded (Agent.msg_error e))
  ∧ (a d = Ok Agent.RespNone → recorded Agent.msg_none)
  ∧ (∀ o, a d = Ok (Agent.RespDict o) →
          Agent.truthy (default (Agent.PyStr "") o) = false →
          recorded Agent.msg_improper)
  ∧ (∀ t s, a d = Ok (Agent.RespDict (Some (Agent.PyObj t s))) →
            recorded (if t then Agent.msg_trouble else Agent.msg_improper))
  ∧ (∀ attr e, a d = Ok (Agent.RespObject attr (Raise e)) →
               (attr = None ∨ attr = Some Agent.PyNone) →
               recorded (Agent.msg_error e)).
Proof.
  intros d recorded. subst recorded. cbv beta.
  assert (Hchat : ∀ text,
    Agent.invoke_and_extract a d = text → Agent.recordable text = true →
    Agent.chat create_agent u (Some a) st
    = (text,
       {| Agent.chat_history :=
            keep_last 20 (Agent.chat_history st ++ Exchange.turns (u, text));
          Agent.invocations := (Agent.invocations st ++ [d])%list;
          Agent.transcript := (Agent.transcript st ++ Exchange.turns (u, text))%list |})).
  { intros text Ht Hrec.
    rewrite (chat_with_agent create_agent u (Some a) a st eq_refl). cbv zeta.
    fold d. by rewrite Ht, Hrec. }
  unfold Agent.invoke_and_extract in Hchat.
  repeat split.
  - intros e He. apply Hchat; [by rewrite He | done].
  - intros He. apply Hchat; [by rewrite He | done].
  - intros o He Ho. apply Hchat; [| done]. rewrite He. simpl.
    destruct o as [v |]; simpl in *; by rewrite ?Ho.
  - intros t s He. apply Hchat; [| by destruct t]. rewrite He. by destruct t.
  - intros attr e He Hattr. apply Hchat; [| done]. rewrite He.
    by destruct Hattr as [-> | ->].
Qed.

Section StorageFacts.

Import Api.

Variable create_agent : result Agent.executor.

(** Tuples of the session list have no [content]: they serialize to nothing. *)
Lemma serialize_session_tuples (l : list Agent.turn) :
  concat (map serialize_item (map SessionTuple l)) = [].
Proof. induction l as [| t l IH]; [done | exact IH]. Qed.

(** So line 97 stores the tuples of the memory, or nothing at all. *)
Lemma store_history_turns sid session msgs st :
  store_history sid session msgs st
  = let turns := concat (map serialize_item (map MemoryMessage msgs)) in
    if is_nil turns then st
    else {| agent := agent st;
            heap := (heap st ++ [turns])%list;
            session_storage := <[sid := length (heap st)]> (session_storage st) |}.
Proof.
  unfold store_history. destruct msgs as [| m msgs]; [| done].
  simpl. by rewrite serialize_session_tuples.
Qed.

(** Entering a new list object under a key. *)
Lemma well_formed_insert sid turns st :
  Storage.well_formed st →
  Storage.well_formed {| agent := agent st;
                 heap := (heap st ++ [turns])%list;
                 session_storage := <[sid := length (heap st)]> (session_storage st) |}.
Proof.
  intros [Hval Hinj]. split; simpl.
  - intros s l. rewrite length_app. simpl.
    destruct (decide (sid = s)) as [-> | Hne].
    + rewrite lookup_insert_eq. intros [= <-]. lia.
    + rewrite lookup_insert_ne by done. intros H. apply Hval in H. lia.
  - intros s1 s2 l.
    destruct (decide (sid = s1)) as [E1 | Hne1], (decide (sid = s2)) as [E2 | Hne2];
      subst; rewrite ?lookup_insert_eq, ?lookup_insert_ne by done; try done.
    + intros [= <-] H. apply Hval in H. lia.
    + intros H [= <-]. apply Hval in H. lia.
    + apply Hinj.
Qed.

Lemma well_formed_agent st ag :
  Storage.well_formed st →
  Storage.well_formed {| agent := ag; heap := heap st; session_storage := session_storage st |}.
Proof. done. Qed.

Lemma well_formed_get_or_create sid st :
  Storage.well_formed st → Storage.well_formed (snd (get_or_create_session sid st)).
Proof.
  intros H. unfold get_or_create_session.
  destruct (session_storage st !! sid); [done |]. by apply well_formed_insert.
Qed.

Lemma well_formed_store_history sid session msgs st :
  Storage.well_formed st → Storage.well_formed (store_history sid session msgs st).
Proof.
  intros H. rewrite store_history_turns. cbv zeta.
  destruct (is_nil _); [done |]. by apply well_formed_insert.
Qed.

(** The state after a request, whatever happened. *)
Lemma chat_endpoint_state req e st :
  snd (chat_endpoint create_agent req e st) = st
  ∨ ∃ sid ag,
      let st1 := snd (get_or_create_session sid st) in
      let st2 := {| agent := ag; heap := heap st1;
                    session_storage := session_storage st1 |} in
      resolve_session_id req e = Ok sid
      ∧ (snd (chat_endpoint create_agent req e st) = st2
         ∨ ∃ msgs, snd (chat_endpoint create_agent req e st)
                   = store_history sid (fst (get_or_create_session sid st)) msgs st2).
Proof.
  destruct (resolve_session_id req e) as [sid | detail] eqn:Hsid.
  2: { left. by rewrite (chat_endpoint_unresolved create_agent req e st detail Hsid). }
  right. exists sid.
  destruct (ensure_memory e) as [[] | err] eqn:Hmem.
  - rewrite (chat_endpoint_processed create_agent req e st sid Hsid Hmem).
    eexists. split; [done |]. case_memory e; eauto.
  - rewrite (chat_endpoint_memory_failed create_agent req e st sid err Hsid Hmem).
    exists (agent st). split; [done |]. left. simpl.
    pose proof (get_or_create_session_agent sid st) as Hag.
    destruct (snd (get_or_create_session sid st)). simpl in *. by subst.
Qed.

Lemma well_formed_chat_endpoint req e st :
  Storage.well_formed st → Storage.well_formed (snd (chat_endpoint create_agent req e st)).
Proof.
  intros H.
  destruct (chat_endpoint_state req e st) as [-> | (sid & ag & _ & [-> | [msgs ->]])];
    [done | |].
  - by apply well_formed_agent, well_formed_get_or_create.
  - by apply well_formed_store_history, well_formed_agent, well_formed_get_or_create.
Qed.

Lemma serve_snd_cons req e rest st :
  snd (serve create_agent ((req, e) :: rest) st)
  = snd (serve create_agent rest (snd (chat_endpoint create_agent req e st))).
Proof.
  simpl. destruct (chat_endpoint create_agent req e st) as [r st1]. simpl.
  by destruct (serve create_agent rest st1).
Qed.

Lemma well_formed_serve reqs st :
  Storage.well_formed st → Storage.well_formed (snd (serve create_agent reqs st)).
Proof.
  revert st. induction reqs as [| [req e] reqs IH]; intros st H; [done |].
  rewrite serve_snd_cons. by apply IH, well_formed_chat_endpoint.
Qed.

(** Keys are only ever added. *)
Lemma get_or_create_session_keeps sid sid' st :
  is_Some (session_storage st !! sid') →
  is_Some (session_storage (snd (get_or_create_session sid st)) !! sid').
Proof.
  intros H. unfold get_or_create_session.
  destruct (session_storage st !! sid) eqn:Hs; [done |]. simpl.
  destruct (decide (sid = sid')) as [-> | Hne].
  - rewrite lookup_insert_eq. eauto.
  - by rewrite lookup_insert_ne.
Qed.

Lemma store_history_keeps sid session msgs sid' st :
  is_Some (session_storage st !! sid') →
  is_Some (session_storage (store_history sid session msgs st) !! sid').
Proof.
  intros H. unfold store_history. destruct (is_nil _); [done |]. simpl.
  destruct (decide (sid = sid')) as [-> | Hne].
  - rewrite lookup_insert_eq. eauto.
  - by rewrite lookup_insert_ne.
Qed.

Lemma chat_endpoint_keeps req e sid' st :
  is_Some (session_storage st !! sid') →
  is_Some (session_storage (snd (chat_endpoint create_agent req e st)) !! sid').
Proof.
  intros H.
  destruct (chat_endpoint_state req e st) as [-> | (sid & ag & _ & [-> | [msgs ->]])];
    [done | |].
  - simpl. by apply get_or_create_session_keeps.
  - apply store_history_keeps. simpl. by apply get_or_create_session_keeps.
Qed.

Lemma serve_keeps reqs sid' st :
  is_Some (session_storage st !! sid') →
  is_Some (session_storage (snd (serve create_agent reqs st)) !! sid').
Proof.
  revert st. induction reqs as [| [req e] reqs IH]; intros st H; [done |].
  rewrite serve_snd_cons. by apply IH, chat_endpoint_keeps.
Qed.

(** A request adds at most one key, and never shrinks the heap. *)
Lemma chat_endpoint_growth req e st :
  let st' := snd (chat_endpoint create_agent req e st) in
  size (session_storage st') ≤ S (size (session_storage st))
  ∧ length (heap st) ≤ length (heap st').
Proof.
  assert (Hget : ∀ sid,
    size (session_storage (snd (get_or_create_session sid st)))
      ≤ S (size (session_storage st))
    ∧ length (heap st) ≤ length (heap (snd (get_or_create_session sid st)))).
  { intros sid. unfold get_or_create_session.
    destruct (session_storage st !! sid) eqn:Hs; simpl; [lia |].
    rewrite map_size_insert_None by done. rewrite length_app. simpl. lia. }
  cbv zeta.
  destruct (chat_endpoint_state req e st) as [-> | (sid & ag & _ & [-> | [msgs ->]])];
    [lia | apply Hget |].
  destruct (Hget sid) as [Hsize Hheap].
  pose proof (get_or_create_session_stored sid st) as [l Hl]%mk_is_Some.
  unfold store_history. destruct (is_nil _); simpl; [done |].
  destruct (session_storage (snd (get_or_create_session sid st)) !! sid) eqn:Hs;
    [| done].
  rewrite map_size_insert_Some by eauto. rewrite length_app. simpl. lia.
Qed.

Lemma chat_endpoint_heap_empty req e st :
  Storage.memory_turns e = [] →
  Forall (fun l => l = []) (heap st) →
  Forall (fun l => l = []) (heap (snd (chat_endpoint create_agent req e st))).
Proof.
  intros Hmem Hall.
  assert (Hget : ∀ sid, Forall (fun l => l = [])
                          (heap (snd (get_or_create_session sid st)))).
  { intros sid. unfold get_or_create_session.
    destruct (session_storage st !! sid); simpl; [done |].
    apply Forall_app. split; [done |]. by constructor. }
  destruct (resolve_session_id req e) as [sid | detail] eqn:Hsid.
  2: { by rewrite (chat_endpoint_unresolved create_agent req e st detail Hsid). }
  destruct (ensure_memory e) as [[] | err] eqn:Hens.
  2: { rewrite (chat_endpoint_memory_failed create_agent req e st sid err Hsid Hens).
       apply Hget. }
  rewrite (chat_endpoint_processed create_agent req e st sid Hsid Hens).
  unfold Storage.memory_turns in Hmem.
  destruct (memory_messages e) as [[msgs | err] |]; simpl;
    rewrite ?store_history_turns; cbv zeta; rewrite ?Hmem; simpl; apply Hget.
Qed.

End StorageFacts.

(** X5.  Serving requests only ever adds session ids: every id stored
    before is still stored afterwards, at most one id is added per request,
    and no list object is dropped. *)
Theorem sessions_are_never_removed (create_agent : result Agent.executor)
    (reqs : list (Api.ChatRequest * Api.env)) (st : Api.state) :
  let st' := snd (Api.serve create_agent reqs st) in
  dom (Api.session_storage st) ⊆ dom (Api.session_storage st')
  ∧ size (Api.session_storage st') ≤ size (Api.session_storage st) + length reqs
  ∧ length (Api.heap st) ≤ length (Api.heap st').
Proof.
  intros st'. subst st'. split; [| revert st; induction reqs as [| [req e] reqs IH]; intros st].
  - intros sid Hsid. apply elem_of_dom in Hsid. apply elem_of_dom.
    by apply serve_keeps.
  - simpl. lia.
  - rewrite serve_snd_cons.
    destruct (chat_endpoint_growth create_agent req e st) as [H1 H2].
    destruct (IH (snd (Api.chat_endpoint create_agent req e st))) as [H3 H4].
    simpl length. lia.
Qed.

(** X6.  After any sequence of requests, every stored session id names an
    existing list object, and two different ids never name the same one. *)
Theorem sessions_never_share_a_list (create_agent : result Agent.executor)
    (reqs : list (Api.ChatRequest * Api.env)) :
  Storage.well_formed (snd (Api.serve create_agent reqs Api.initial_state)).
Proof.
  apply well_formed_serve. split; simpl; intros *; by rewrite lookup_empty.
Qed.

(** X7.  When the executor's memory yields no message with a [content],
    every stored session stays the empty list, however many exchanges
    [chat] has recorded: the tuples of the session list are not copied back
    (they have no [content] attribute). *)
Theorem sessions_stay_empty_without_memory (create_agent : result Agent.executor)
    (reqs : list (Api.ChatRequest * Api.env))
    (Hmem : Forall (fun re => Storage.memory_turns (snd re) = []) reqs) :
  let st := snd (Api.serve create_agent reqs Api.initial_state) in
  ∀ sid, sid ∈ dom (Api.session_storage st) → Storage.session_of sid st = Some [].
Proof.
  intros st sid Hsid.
  assert (Hwf : Storage.well_formed st).
  { apply well_formed_serve. split; simpl; intros *; by rewrite lookup_empty. }
  assert (Hall : Forall (fun l => l = []) (Api.heap st)).
  { subst st. clear Hsid Hwf.
    assert (H0 : Forall (fun l : list Agent.turn => l = []) (Api.heap Api.initial_state))
      by constructor.
    revert H0. generalize Api.initial_state.
    induction Hmem as [| [req e] reqs He _ IH]; intros st0 H0; [done |].
    rewrite serve_snd_cons. by apply IH, chat_endpoint_heap_empty. }
  apply elem_of_dom in Hsid as [l Hl].
  unfold Storage.session_of. rewrite Hl. simpl.
  destruct Hwf as [Hval _]. apply Hval in Hl as Hlt.
  apply lookup_lt_is_Some in Hlt as [x Hx].
  rewrite Hx. f_equal.
  by apply (Forall_lookup_1 _ _ _ _ Hall Hx).
Qed.

Lemma sessions_stay_empty_without_memory_witness :
  let echo : Agent.executor :=
    fun d => Ok (Agent.RespDict (Some (Agent.PyStr ("re: " ++ Agent.input d)))) in
  let e (n : N) : Api.env :=
    {| Api.urandom := Ok n; Api.ensure_memory := Ok (); Api.invoke := echo;
       Api.memory_messages := Some (Ok [{| Api.msg_content := None;
                                           Api.msg_type := Some "ai" |}]) |} in
  let reqs :=
    [({| Api.message := "first"; Api.session_id := Some "alpha" |}, e 1%N);
     ({| Api.message := "second"; Api.session_id := None |}, e 2%N);
     ({| Api.message := "third"; Api.session_id := Some "alpha" |}, e 3%N)] in
  let st := snd (Api.serve (Raise "no key") reqs Api.initial_state) in
  Forall (fun re => Storage.memory_turns (snd re) = []) reqs
  ∧ "alpha" ∈ dom (Api.session_storage st)
  ∧ Storage.session_of "alpha" st = Some []
  ∧ length (Agent.chat_history (Api.agent st)) = 6.
Proof.
  intros echo e reqs st.
  assert (Hmem : Forall (fun re => Storage.memory_turns (snd re) = []) reqs)
    by (repeat constructor).
  assert (Hdom : "alpha" ∈ dom (Api.session_storage st))
    by (apply elem_of_dom; exists 0; vm_compute; reflexivity).
  split; [done |]. split; [done |]. split; [| vm_compute; reflexivity].
  exact (sessions_stay_empty_without_memory (Raise "no key") reqs Hmem "alpha" Hdom).
Defined.

Lemma serialize_item_roles (i : Api.history_item) :
  Forall (fun t : Agent.turn => fst t = "user" ∨ fst t = "assistant")
    (Api.serialize_item i).
Proof.
  destruct i as [[c ty] | t]; simpl; [| done].
  destruct c as [c |]; [| done].
  constructor; [| done]. simpl.
  destruct ty as [ty |]; [| by left]. destruct (String.eqb ty "ai"); eauto.
Qed.

(** X8.  When a request is processed and the executor's memory yields
    messages with a [content], the session stored under the request's id
    becomes exactly their serialization, held in a new list object; its
    roles are "user" and "assistant" only. *)
Theorem session_holds_memory_serialization (create_agent : result Agent.executor)
    (req : Api.ChatRequest) (e : Api.env) (st : Api.state) (sid : string)
    (Hsid : Api.resolve_session_id req e = Ok sid)
    (Hens : Api.ensure_memory e = Ok ())
    (Hmem : Storage.memory_turns e ≠ []) :
  let st' := snd (Api.chat_endpoint create_agent req e st) in
  Storage.session_of sid st' = Some (Storage.memory_turns e)
  ∧ Forall (fun t : Agent.turn => fst t = "user" ∨ fst t = "assistant")
      (Storage.memory_turns e)
  ∧ length (Api.heap st') = S (length (Api.heap (snd (Api.get_or_create_session sid st)))).
Proof.
  intros st'. subst st'.
  rewrite (chat_endpoint_processed create_agent req e st sid Hsid Hens).
  unfold Storage.memory_turns in *.
  destruct (Api.memory_messages e) as [[msgs | err] |]; [| done | done].
  simpl. rewrite store_history_turns. cbv zeta.
  destruct (concat _) as [| t turns] eqn:Hturns; [done |]. simpl.
  split; [| split].
  - unfold Storage.session_of. simpl. rewrite lookup_insert_eq. simpl.
    by apply list_lookup_middle.
  - rewrite <- Hturns. apply Forall_concat, Forall_map, Forall_map.
    apply Forall_forall. intros m _. apply serialize_item_roles.
  - rewrite length_app. simpl. lia.
Qed.

Lemma session_holds_memory_serialization_witness :
  let echo : Agent.executor :=
    fun d => Ok (Agent.RespDict (Some (Agent.PyStr ("re: " ++ Agent.input d)))) in
  let e : Api.env :=
    {| Api.urandom := Ok 1%N; Api.ensure_memory := Ok (); Api.invoke := echo;
       Api.memory_messages :=
         Some (Ok [{| Api.msg_content := Some "hi"; Api.msg_type := Some "human" |};
                   {| Api.msg_content := None; Api.msg_type := Some "system" |};
                   {| Api.msg_content := Some "re: hi"; Api.msg_type := Some "ai" |}]) |} in
  let req := {| Api.message := "hi"; Api.session_id := Some "alpha" |} in
  let st' := snd (Api.chat_endpoint (Raise "no key") req e Api.initial_state) in
  Api.resolve_session_id req e = Ok "alpha"
  ∧ Api.ensure_memory e = Ok ()
  ∧ Storage.memory_turns e = [("user", "hi"); ("assistant", "re: hi")]
  ∧ Storage.session_of "alpha" st' = Some (Storage.memory_turns e)
  ∧ length (Api.heap st') = 2.
Proof.
  intros echo e req st'.
  split; [reflexivity |]. split; [reflexivity |]. split; [reflexivity |].
  destruct (session_holds_memory_serialization (Raise "no key") req e
              Api.initial_state "alpha") as (H1 & _ & H3);
    [reflexivity | reflexivity | discriminate |].
  split; [exact H1 | exact H3].
Defined.

Section CapFacts.

Variable create_agent : result Agent.executor.

Lemma chat_endpoint_keeps_cap req e st :
  length (Agent.chat_history (Api.agent st)) ≤ 20 →
  length (Agent.chat_history
            (Api.agent (snd (Api.chat_endpoint create_agent req e st)))) ≤ 20.
Proof.
  intros H.
  destruct (Api.resolve_session_id req e) as [sid | detail] eqn:Hsid.
  2: { by rewrite (chat_endpoint_unresolved create_agent req e st detail Hsid). }
  destruct (Api.ensure_memory e) as [[] | err] eqn:Hens.
  - rewrite (chat_endpoint_agent create_agent req e st sid Hsid Hens).
    by apply chat_keeps_cap.
  - rewrite (chat_endpoint_memory_failed create_agent req e st sid err Hsid Hens).
    simpl. by rewrite get_or_create_session_agent.
Qed.

Lemma console_step_keeps_cap r a st :
  length (Agent.chat_history st) ≤ 20 →
  length (Agent.chat_history
            (Session.state_of (Console.step create_agent r a st))) ≤ 20.
Proof.
  intros H. unfold Console.step. destruct r as [l |]; [| done].
  destruct (String.eqb (Text.strip l) ""); [done |].
  destruct (existsb _ _); [done |].
  destruct (String.eqb _ "history"); [done |].
  destruct (String.eqb _ "clear"); [simpl; lia |].
  cbn [Session.state_of]. by apply chat_keeps_cap.
Qed.

Lemma on_submit_keeps_cap time submit user_input agent_exec page :
  length (Agent.chat_history (App.agent page)) ≤ 20 →
  length (Agent.chat_history
            (App.agent (App.on_submit create_agent time submit user_input
                          agent_exec page))) ≤ 20.
Proof.
  intros H. unfold App.on_submit. destruct (_ && _); [| done].
  destruct agent_exec as [a | e]; [| done].
  pose proof (chat_keeps_cap create_agent (Text.strip user_input) (Some a)
                (App.agent page) H) as Hc.
  by destruct (Agent.chat create_agent (Text.strip user_input) (Some a) (App.agent page)).
Qed.

End CapFacts.

(** X9.  Whatever the caller (the endpoint, the console loop with its
    commands, the page), and however many inputs it handles, the history of
    module agent never exceeds 20 entries. *)
Theorem every_caller_keeps_the_cap (create_agent : result Agent.executor)
    (time : nat -> Z)
    (reqs : list (Api.ChatRequest * Api.env))
    (inputs : list (Console.read * Agent.executor))
    (submits : list (bool * string * result Agent.executor)) :
  let served := snd (Api.serve create_agent reqs Api.initial_state) in
  let typed := Session.state_of (Session.run create_agent inputs Agent.initial_state) in
  let page :=
    fold_left (fun p s => App.on_submit create_agent time (fst (fst s)) (snd (fst s)) (snd s) p)
      submits {| App.messages := []; App.agent := Agent.initial_state |} in
  length (Agent.chat_history (Api.agent served)) ≤ 20
  ∧ length (Agent.chat_history typed) ≤ 20
  ∧ length (Agent.chat_history (App.agent page)) ≤ 20.
Proof.
  intros served typed page. subst served typed page. split; [| split].
  - assert (H0 : length (Agent.chat_history (Api.agent Api.initial_state)) ≤ 20)
      by (simpl; lia).
    revert H0. generalize Api.initial_state.
    induction reqs as [| [req e] reqs IH]; intros st H0; [done |].
    rewrite serve_snd_cons. by apply IH, chat_endpoint_keeps_cap.
  - assert (H0 : length (Agent.chat_history Agent.initial_state) ≤ 20) by (simpl; lia).
    revert H0. generalize Agent.initial_state.
    induction inputs as [| [r a] inputs IH]; intros st H0; [done |].
    simpl. pose proof (console_step_keeps_cap create_agent r a st H0) as Hs.
    destruct (Console.step create_agent r a st) as [st' | st']; simpl in *; [by apply IH | done].
  - set (p0 := {| App.messages := []; App.agent := Agent.initial_state |}).
    assert (H0 : length (Agent.chat_history (App.agent p0)) ≤ 20) by (simpl; lia).
    revert H0. generalize p0.
    induction submits as [| s submits IH]; intros p H0; [done |].
    simpl. by apply IH, on_submit_keeps_cap.
Qed.

Section StripFacts.

Import Text.

Lemma lstrip_nil_blank (s : list ascii) : lstrip s = [] → blank_list s = true.
Proof.
  remember (length s) as n eqn:Hn. revert s Hn.
  induction n as [n IH] using lt_wf_ind. intros s -> H.
  assert (Hrec : ∀ t, length t < length s → lstrip t = [] → blank_list t = true).
  { intros t Ht. by apply (IH (length t)). }
  clear IH. destruct s as [| a t1]; [done |].
  cbn [blank_list lstrip] in *.
  destruct (ws1 a) eqn:E1.
  - rewrite (Hrec t1) by (simpl; lia || done). reflexivity.
  - destruct t1 as [| b t2]; [done |].
    destruct (ws2 a b) eqn:E2.
    + rewrite (Hrec t2) by (simpl; lia || done). reflexivity.
    + destruct t2 as [| c t3]; [done |].
      destruct (ws3 a b c) eqn:E3; [| done].
      rewrite (Hrec t3) by (simpl; lia || done). reflexivity.
Qed.

Lemma lstrip_idem (s : list ascii) : lstrip (lstrip s) = lstrip s.
Proof.
  remember (length s) as n eqn:Hn. revert s Hn.
  induction n as [n IH] using lt_wf_ind. intros s ->.
  destruct s as [| a t1]; [done |].
  cbn [lstrip].
  destruct (ws1 a) eqn:E1; [apply (IH (length t1)); simpl; [lia | done] |].
  destruct t1 as [| b t2]; [cbn [lstrip]; by rewrite E1 |].
  destruct (ws2 a b) eqn:E2; [apply (IH (length t2)); simpl; [lia | done] |].
  destruct t2 as [| c t3]; [cbn [lstrip]; by rewrite E1, E2 |].
  destruct (ws3 a b c) eqn:E3; [apply (IH (length t3)); simpl; [lia | done] |].
  cbn [lstrip]. by rewrite E1, E2, E3.
Qed.

Lemma blank_list_app (x y : list ascii) :
  blank_list x = true → blank_list y = true → blank_list (x ++ y) = true.
Proof.
  remember (length x) as n eqn:Hn. revert x Hn.
  induction n as [n IH] using lt_wf_ind. intros x -> Hx Hy.
  assert (Hrec : ∀ t, length t < length x → blank_list t = true →
                      blank_list (t ++ y) = true).
  { intros t Ht Hb. by apply (IH (length t)). }
  clear IH. destruct x as [| a t1]; [done |].
  cbn [blank_list app] in *.
  apply orb_prop in Hx as [Hx | Hx].
  - apply andb_prop in Hx as [E1 Ht]. rewrite E1.
    rewrite (Hrec t1) by (simpl; lia || done). reflexivity.
  - destruct t1 as [| b t2]; [done |]. cbn [app].
    apply orb_prop in Hx as [Hx | Hx].
    + apply andb_prop in Hx as [E2 Ht]. rewrite E2.
      rewrite (Hrec t2) by (simpl; lia || done). by rewrite orb_true_r.
    + destruct t2 as [| c t3]; [done |]. cbn [app].
      apply andb_prop in Hx as [E3 Ht]. rewrite E3.
      rewrite (Hrec t3) by (simpl; lia || done). by rewrite !orb_true_r.
Qed.

Lemma lstrip_rev_nil_blank (r : list ascii) :
  lstrip_rev r = [] → blank_list (rev r) = true.
Proof.
  remember (length r) as n eqn:Hn. revert r Hn.
  induction n as [n IH] using lt_wf_ind. intros r -> H.
  destruct r as [| c t1]; [done |].
  cbn [lstrip_rev] in H.
  destruct (ws1 c) eqn:E1.
  - simpl. apply blank_list_app.
    + apply (IH (length t1)); simpl; [lia | done | done].
    + simpl. by rewrite E1.
  - destruct t1 as [| b t2]; [done |].
    destruct (ws2 b c) eqn:E2.
    + simpl. rewrite <- app_assoc. apply blank_list_app.
      * apply (IH (length t2)); simpl; [lia | done | done].
      * simpl. rewrite E2. by rewrite orb_true_r.
    + destruct t2 as [| a t3]; [done |].
      destruct (ws3 a b c) eqn:E3; [| done].
      simpl. rewrite <- !app_assoc. apply blank_list_app.
      * apply (IH (length t3)); simpl; [lia | done | done].
      * simpl. rewrite E3. by rewrite !orb_true_r.
Qed.

Lemma string_of_list_ascii_nil (l : list ascii) :
  string_of_list_ascii l = "" → l = [].
Proof. by destruct l. Qed.

(** Only a blank text strips to nothing. *)
Lemma strip_empty_blank (s : string) : strip s = "" → blank s = true.
Proof.
  unfold strip, blank. intros H.
  apply string_of_list_ascii_nil in H.
  apply (f_equal (@rev ascii)) in H. rewrite rev_involutive in H. simpl in H.
  apply lstrip_rev_nil_blank in H. rewrite rev_involutive in H.
  apply lstrip_blank in H. rewrite lstrip_idem in H.
  by apply lstrip_nil_blank.
Qed.

Lemma strip_empty_iff (s : string) : String.eqb (strip s) "" = blank s.
Proof.
  destruct (blank s) eqn:Hb.
  - by rewrite (strip_blank s Hb).
  - apply eqb_false_neq. intros H. apply strip_empty_blank in H. congruence.
Qed.

End StripFacts.

(** X10.  One line of the console: the agent is called exactly when the
    line is not blank and its stripped, lower-cased text is none of quit,
    exit, q, history, clear; the message sent is the stripped line, with
    the current history.  Otherwise no call is made, and the history is
    emptied when the word is clear and left as it was for every other
    line.  The loop ends exactly on quit, exit and q. *)
Theorem console_calls_agent_iff (create_agent : result Agent.executor)
    (line : string) (a : Agent.executor) (st : Agent.state) :
  let text := Text.strip line in
  let cmd := Text.lower text in
  let next := Console.step create_agent (Console.Line line) a st in
  let st' := Session.state_of next in
  (if negb (Text.blank line) && negb (Session.is_command cmd)
   then st' = snd (Agent.chat create_agent text (Some a) st)
        ∧ Agent.invocations st'
          = (Agent.invocations st
             ++ [{| Agent.input := text;
                    Agent.input_history :=
                      Agent.format_history (Agent.chat_history st) |}])%list
   else Agent.invocations st' = Agent.invocations st
        ∧ Agent.chat_history st'
          = if String.eqb cmd "clear" then [] else Agent.chat_history st)
  ∧ match next with
    | Console.Stopped _ => existsb (String.eqb cmd) ["quit"; "exit"; "q"] = true
    | Console.Running _ => existsb (String.eqb cmd) ["quit"; "exit"; "q"] = false
    end.
Proof.
  intros text cmd next st'. subst st' next. unfold Console.step.
  rewrite strip_empty_iff. fold text. fold cmd.
  destruct (Text.blank line) eqn:Hb.
  { assert (Hc : cmd = "")
      by (unfold cmd, text; by rewrite (strip_blank line Hb)).
    by rewrite Hc. }
  unfold Session.is_command. cbn [negb andb existsb].
  destruct (String.eqb_spec cmd "quit") as [-> |]; [done |].
  destruct (String.eqb_spec cmd "exit") as [-> |]; [done |].
  destruct (String.eqb_spec cmd "q") as [-> |]; [done |].
  destruct (String.eqb_spec cmd "history") as [-> |]; [done |].
  destruct (String.eqb_spec cmd "clear") as [-> |]; [done |].
  cbn [orb negb Session.state_of]. split; [| done]. split; [done |].
  by rewrite (chat_with_agent create_agent text (Some a) a st eq_refl).
Qed.

Section PageFacts.

Import App.

Lemma update_last_assistant_snoc (l : list ui_message) (m : ui_message)
    (text : string) (t : Z) :
  role m = "assistant" →
  update_last_assistant (l ++ [m]) text t
  = (l ++ [{| role := role m; content := text; ts := t |}])%list.
Proof.
  intros Hm. unfold update_last_assistant.
  rewrite rev_app_distr. simpl. rewrite Hm. simpl.
  by rewrite rev_involutive.
Qed.

End PageFacts.

(** X11.  A submitted text that is not blank adds exactly two bubbles
    after the existing ones, which are left untouched: the stripped text of
    the user, and the assistant bubble holding the reply of [chat] (or the
    failure notice when no executor could be obtained).  The placeholder
    "Thinking..." never remains. *)
Theorem submit_appends_two_bubbles (create_agent : result Agent.executor)
    (time : nat -> Z) (user_input : string) (agent_exec : result Agent.executor)
    (page : App.state) (Hblank : Text.blank user_input = false) :
  let text := Text.strip user_input in
  let user := {| App.role := "user"; App.content := text; App.ts := time 0 |} in
  App.on_submit create_agent time true user_input agent_exec page
  = match agent_exec with
    | Ok a =>
        let r := Agent.chat create_agent text (Some a) (App.agent page) in
        {| App.messages :=
             (App.messages page
              ++ [user; {| App.role := "assistant"; App.content := fst r;
                           App.ts := time 3 |}])%list;
           App.agent := snd r |}
    | Raise _ =>
        {| App.messages :=
             (App.messages page
              ++ [user; {| App.role := "assistant"; App.content := App.msg_failed;
                           App.ts := time 2 |}])%list;
           App.agent := App.agent page |}
    end.
Proof.
  intros text user. unfold App.on_submit.
  rewrite strip_empty_iff, Hblank.
  assert (Hne : String.eqb user_input "" = false).
  { destruct (String.eqb_spec user_input ""); [by subst | done]. }
  rewrite Hne. cbn [negb andb]. fold text. fold user.
  destruct agent_exec as [a | e].
  - destruct (Agent.chat create_agent text (Some a) (App.agent page)) as [response ag].
    cbv zeta. cbn [fst snd]. f_equal.
    rewrite (update_last_assistant_snoc (App.messages page ++ [user])) by done.
    by rewrite <- app_assoc.
  - f_equal.
    rewrite (update_last_assistant_snoc (App.messages page ++ [user])) by done.
    by rewrite <- app_assoc.
Qed.

Lemma submit_appends_two_bubbles_witness :
  let echo : Agent.executor :=
    fun d => Ok (Agent.RespDict (Some (Agent.PyStr ("re: " ++ Agent.input d)))) in
  let earlier := {| App.role := "assistant"; App.content := "welcome"; App.ts := 5%Z |} in
  let page := {| App.messages := [earlier]; App.agent := Agent.initial_state |} in
  Text.blank "  hey " = false
  ∧ App.messages (App.on_submit (Raise "no key") Z.of_nat true "  hey " (Ok echo) page)
    = [earlier;
       {| App.role := "user"; App.content := "hey"; App.ts := 0%Z |};
       {| App.role := "assistant"; App.content := "re: hey"; App.ts := 3%Z |}].
Proof.
  intros echo earlier page. split; [reflexivity |].
  rewrite (submit_appends_two_bubbles (Raise "no key") Z.of_nat "  hey " (Ok echo)
             page eq_refl).
  reflexivity.
Defined.

(** X12.  Once [ensure_agent_ready] has returned an executor, it is
    stored as ready, and later calls (and line 173 of the page) return the
    same executor without building one again, whatever building would now
    do.  When it fails, nothing is stored and nothing was cached. *)
Theorem agent_is_built_once (create_agent create_again : result Agent.executor)
    (ss : Startup.session_state) (cache : option Agent.executor) :
  match Startup.ensure_agent_ready create_agent ss cache with
  | (Ok a, ss1, cache1) =>
      Startup.agent_ready ss1 = true
      ∧ Startup.agent_executor ss1 = Some a
      ∧ Startup.ensure_agent_ready create_again ss1 cache1 = (Ok a, ss1, cache1)
      ∧ Startup.agent_exec create_again ss1 cache1 = (Ok a, ss1, cache1)
  | (Raise e, ss1, cache1) =>
      create_agent = Raise e ∧ ss1 = ss ∧ cache1 = cache ∧ cache = None
  end.
Proof.
  unfold Startup.ensure_agent_ready, Startup.agent_exec,
    Startup.get_agent_executor_cached.
  destruct ss as [ready [a0 |]]; destruct ready; simpl;
    destruct cache as [c |]; simpl; try done;
    destruct create_agent as [a | e]; simpl; done.
Qed.

(** X13.  With status 200 and a body that lacks what the tool reads, the
    tool returns the text of the failure: the missing key in quotes for a
    missing ['current_condition'], ['weatherDesc'] or field key, "list index
    out of range" for an empty list of conditions, and the type error for a
    body that is not an object. *)
Theorem get_weather_missing_data (requests_get : string -> Tools.http_outcome)
    (type_error : string -> bool -> string)
    (repr_container : Tools.json -> string) (city : string) :
  let answer (body : Tools.json) :=
    requests_get (Tools.wttr_url city) = Tools.HttpResponse 200 (Ok body) in
  let result := Tools.get_weather requests_get type_error repr_container city in
  (∀ fields, answer (Tools.JObj fields) →
     Tools.assoc "current_condition" fields = None →
     result = "Error getting weather: 'current_condition'")
  ∧ (∀ fields, answer (Tools.JObj fields) →
       Tools.assoc "current_condition" fields = Some (Tools.JArr []) →
       result = "Error getting weather: list index out of range")
  ∧ (∀ fields current rest, answer (Tools.JObj fields) →
       Tools.assoc "current_condition" fields
         = Some (Tools.JArr (Tools.JObj current :: rest)) →
       Tools.assoc "weatherDesc" current = None →
       result = "Error getting weather: 'weatherDesc'")
  ∧ (∀ fields current rest wd wrest v key, answer (Tools.JObj fields) →
       Tools.assoc "current_condition" fields
         = Some (Tools.JArr (Tools.JObj current :: rest)) →
       Tools.assoc "weatherDesc" current
         = Some (Tools.JArr (Tools.JObj wd :: wrest)) →
       Tools.assoc "value" wd = Some v →
       In key ["temp_C"; "FeelsLikeC"; "humidity"] →
       Tools.assoc key current = None →
       (∀ k, In k ["temp_C"; "FeelsLikeC"; "humidity"] → k ≠ key →
             is_Some (Tools.assoc k current)) →
       result = "Error getting weather: '" ++ key ++ "'")
  ∧ (∀ body, answer body →
       (∀ fields, body ≠ Tools.JObj fields) →
       result = "Error getting weather: " ++ type_error (Tools.type_name body) true).
Proof.
  intros answer result. subst answer result. cbv beta.
  assert (Hget : ∀ body e,
    requests_get (Tools.wttr_url city) = Tools.HttpResponse 200 (Ok body) →
    Tools.weather_sentence type_error repr_container city (Ok body) = Raise e →
    Tools.get_weather requests_get type_error repr_container city
    = "Error getting weather: " ++ e).
  { intros body e H. by apply get_weather_bad_body. }
  repeat split.
  - intros fields H Hcc. apply (Hget _ _ H). simpl. by rewrite Hcc.
  - intros fields H Hcc. apply (Hget _ _ H). simpl. by rewrite Hcc.
  - intros fields current rest H Hcc Hwd. apply (Hget _ _ H). simpl.
    rewrite Hcc. simpl. by rewrite Hwd.
  - intros fields current rest wd wrest v key H Hcc Hwd Hv Hkey Hnone Hothers.
    apply (Hget _ _ H). simpl. rewrite Hcc. simpl. rewrite Hwd. simpl.
    rewrite Hv. simpl.
    assert (Hk : ∀ k, In k ["temp_C"; "FeelsLikeC"; "humidity"] →
                 k = key ∨ ∃ x, Tools.assoc k current = Some x).
    { intros k Hin. destruct (decide (k = key)) as [-> | Hne]; [by left |].
      right. by apply Hothers. }
    destruct (Hk "temp_C") as [<- | [v1 H1]]; [simpl; tauto | by rewrite Hnone |].
    rewrite H1. simpl.
    destruct (Hk "FeelsLikeC") as [<- | [v2 H2]]; [simpl; tauto | by rewrite Hnone |].
    rewrite H2. simpl.
    destruct (Hk "humidity") as [<- | [v3 H3]]; [simpl; tauto | by rewrite Hnone |].
    simpl in Hkey. destruct Hkey as [<- | [<- | [<- | []]]]; congruence.
  - intros body H Hobj. apply (Hget _ _ H). simpl.
    destruct body; try done. by destruct (Hobj fields).
Qed.

(** * Sessions and the replayed history *)

Section ReplayFacts.

Import Api.

Variable create_agent : result Agent.executor.

(** A tail at least as long as the bound is all that the cut looks at. *)
Lemma keep_last_app_long {A} n (l k : list A) :
  n ≤ length k → keep_last n (l ++ k) = keep_last n k.
Proof.
  intros H. unfold keep_last. rewrite length_app.
  rewrite drop_app_ge by lia. f_equal. lia.
Qed.

Lemma recordable_spec (o : string) :
  Agent.recordable o = true ↔ o ≠ "" ∧ o ≠ Agent.sentinel.
Proof.
  unfold Agent.recordable.
  rewrite andb_true_iff, !negb_true_iff, !eqb_false_neq. done.
Qed.

(** What one request adds to the global history: at most one exchange,
    whatever the session. *)
Lemma chat_endpoint_recorded req e st :
  length (Agent.chat_history (agent st)) ≤ 20 →
  ∃ ps : list (string * string),
    length ps ≤ 1
    ∧ Forall (fun p => Agent.recordable (snd p) = true) ps
    ∧ Agent.transcript (agent (snd (chat_endpoint create_agent req e st)))
      = (Agent.transcript (agent st) ++ flat_map Exchange.turns ps)%list
    ∧ Agent.chat_history (agent (snd (chat_endpoint create_agent req e st)))
      = keep_last 20 (Agent.chat_history (agent st) ++ flat_map Exchange.turns ps).
Proof.
  intros Hcap.
  destruct (resolve_session_id req e) as [sid | detail] eqn:Hsid.
  2: { rewrite (chat_endpoint_unresolved create_agent req e st detail Hsid).
       exists []. simpl. rewrite !app_nil_r, keep_last_short by done. auto. }
  destruct (ensure_memory e) as [[] | err] eqn:Hmem.
  2: { rewrite (chat_endpoint_memory_failed create_agent req e st sid err Hsid Hmem).
       simpl. rewrite get_or_create_session_agent.
       exists []. simpl. rewrite !app_nil_r, keep_last_short by done. auto. }
  rewrite (chat_endpoint_agent create_agent req e st sid Hsid Hmem).
  rewrite (chat_with_agent create_agent _ _ (invoke e)) by done.
  cbn [snd Agent.transcript Agent.chat_history].
  destruct (Agent.recordable _) eqn:Hrec.
  - eexists [(message req, _)]. simpl. split; [lia |]. split; [| done].
    constructor; [exact Hrec | constructor].
  - exists []. simpl. auto.
Qed.

(** The same for a sequence of requests. *)
Lemma serve_recorded reqs st :
  length (Agent.chat_history (agent st)) ≤ 20 →
  ∃ ps : list (string * string),
    length ps ≤ length reqs
    ∧ Forall (fun p => Agent.recordable (snd p) = true) ps
    ∧ Agent.transcript (agent (snd (serve create_agent reqs st)))
      = (Agent.transcript (agent st) ++ flat_map Exchange.turns ps)%list
    ∧ Agent.chat_history (agent (snd (serve create_agent reqs st)))
      = keep_last 20 (Agent.chat_history (agent st) ++ flat_map Exchange.turns ps).
Proof.
  revert st. induction reqs as [| [req e] reqs IH]; intros st Hcap.
  { exists []. simpl. rewrite !app_nil_r, keep_last_short by done. auto. }
  rewrite serve_snd_cons.
  destruct (chat_endpoint_recorded req e st Hcap) as (ps1 & Hl1 & Hr1 & Ht1 & Hh1).
  destruct (IH (snd (chat_endpoint create_agent req e st))) as (ps2 & Hl2 & Hr2 & Ht2 & Hh2).
  { rewrite Hh1, keep_last_length. lia. }
  exists (ps1 ++ ps2)%list. rewrite length_app, flat_map_app. simpl length.
  split; [lia |]. split; [by apply Forall_app |]. split.
  - by rewrite Ht2, Ht1, <- app_assoc.
  - by rewrite Hh2, Hh1, keep_last_app, <- app_assoc.
Qed.

(** What the next request sends to the model. *)
Lemma chat_endpoint_last_invocation req e st sid :
  resolve_session_id req e = Ok sid →
  ensure_memory e = Ok () →
  last (Agent.invocations (agent (snd (chat_endpoint create_agent req e st))))
  = Some {| Agent.input := message req;
            Agent.input_history :=
              Agent.format_history (Agent.chat_history (agent st)) |}.
Proof.
  intros Hsid Hmem.
  rewrite (chat_endpoint_agent create_agent req e st sid Hsid Hmem).
  rewrite (chat_with_agent create_agent _ _ (invoke e)) by done.
  cbn [snd Agent.invocations]. apply last_snoc.
Qed.

(** The formatted tail of a history that ends with whole exchanges. *)
Lemma format_history_recent (h : list Agent.turn) (ps : list (string * string)) :
  Forall (fun p => Agent.recordable (snd p) = true) ps →
  (length ps ≤ 10 →
   ∃ older,
     Agent.format_history (keep_last 20 (h ++ flat_map Exchange.turns ps))
     = (older ++ flat_map Exchange.messages ps)%list)
  ∧ (10 ≤ length ps →
     Agent.format_history (keep_last 20 (h ++ flat_map Exchange.turns ps))
     = flat_map Exchange.messages (keep_last 10 ps)).
Proof.
  intros Hps. split; intros Hlen.
  - destruct (keep_last_app_tail 20 h (flat_map Exchange.turns ps)) as [older Hold].
    { rewrite flat_map_turns_length. lia. }
    rewrite Hold, format_history_app, format_history_turns by done. eauto.
  - rewrite keep_last_app_long by (rewrite flat_map_turns_length; lia).
    change 20 with (2 * 10). rewrite keep_last_flat_map_turns.
    apply format_history_turns. unfold keep_last. by apply Forall_drop.
Qed.

End ReplayFacts.

(** C2, as stated, fails, twice.  The history replayed to the model is the
    one global history of at most 20 turns, shared by every session: a
    first call obtains a session id, ten calls of other sessions follow,
    and the call that then carries the first id finds its session entry
    again, yet the history sent to the model holds the ten later exchanges
    only: the first exchange is gone.  And the handler does not compare a
    generated identifier with the stored ones: two calls without a session
    id for which the random source returns the same bytes are answered
    with the same identifier, and the second finds the session of the
    first. *)
Lemma later_turn_misses_first_exchange :
  let echo : Agent.executor :=
    fun d => Ok (Agent.RespDict (Some (Agent.PyStr ("re: " ++ Agent.input d)))) in
  let env_of (n : N) :=
    {| Api.urandom := Ok n; Api.ensure_memory := Ok (); Api.invoke := echo;
       Api.memory_messages := None |} in
  let other (n : nat) :=
    ({| Api.message := "other"; Api.session_id := None |}, env_of (N.of_nat n)) in
  let sid := Api.uuid4_str 1 in
  let reqs :=
    (({| Api.message := "first"; Api.session_id := None |}, env_of 1%N)
     :: map other (seq 2 10)
     ++ [({| Api.message := "again"; Api.session_id := Some sid |}, env_of 12%N)])%list in
  let '(results, st) := Api.serve (Raise "no key") reqs Api.initial_state in
  let twice :=
    Api.serve (Raise "no key")
      [({| Api.message := "one"; Api.session_id := None |}, env_of 7%N);
       ({| Api.message := "two"; Api.session_id := None |}, env_of 7%N)]
      Api.initial_state in
  head results = Some (Api.Status200 "re: first" sid)
  ∧ last results = Some (Api.Status200 "re: again" sid)
  ∧ Api.session_storage st !! sid = Some 0
  ∧ length (Api.heap st) = 11
  ∧ Agent.input_history <$> last (Agent.invocations (Api.agent st))
    = Some (concat (repeat [Agent.HumanMessage "other"; Agent.AIMessage "re: other"] 10))
  ∧ fst twice = [Api.Status200 "re: one" (Api.uuid4_str 7);
                 Api.Status200 "re: two" (Api.uuid4_str 7)]
  ∧ size (Api.session_storage (snd twice)) = 1
  ∧ length (Api.heap (snd twice)) = 1.
Proof. vm_compute. done. Qed.

(** C2, amended.  A request without a session id (absent or empty), for
    which [uuid4] obtains its random bytes, is answered with the identifier
    generated for it, a non-empty text of 36 characters.  The handler makes
    no uniqueness check: the identifier generated for any other request
    equals this one exactly when the two UUID integers are equal.  A later
    request that carries this identifier, whatever requests [mids] were
    served in between, is answered under the same identifier and finds the
    session entry stored for it, so no new one is created.  The history
    sent to the model on that later request is the global one, of all
    sessions.  When both requests reach [chat] (attaching a memory to the
    executor does not raise) and the first reply was recorded, that is,
    differed from "No response generated": with [ps] the exchanges recorded
    in between, the later request replays the exchange of the first
    request, followed by [ps], when [ps] has at most 9 exchanges; it
    replays the last 10 exchanges of [ps] and nothing else when [ps] has
    10 or more. *)
Theorem session_id_generation_and_reuse (create_agent : result Agent.executor)
    (req1 req2 : Api.ChatRequest) (e1 e2 : Api.env)
    (mids : list (Api.ChatRequest * Api.env)) (st : Api.state) (r1 : N)
    (Hnew : Api.session_id req1 = None ∨ Api.session_id req1 = Some "")
    (Hrand : Api.urandom e1 = Ok r1)
    (Hsame : Api.session_id req2 = Some (Api.uuid4_str r1)) :
  let sid := Api.uuid4_str r1 in
  let reply1 :=
    fst (Agent.chat create_agent (Api.message req1) (Some (Api.invoke e1)) (Api.agent st)) in
  let first := (Api.message req1, reply1) in
  let st1 := snd (Api.chat_endpoint create_agent req1 e1 st) in
  let stk := snd (Api.serve create_agent mids st1) in
  let st2 := snd (Api.chat_endpoint create_agent req2 e2 stk) in
  String.length sid = 36
  ∧ sid ≠ ""
  ∧ (∀ (req : Api.ChatRequest) (e : Api.env) (st' : Api.state) (r : N),
       Api.session_id req = None ∨ Api.session_id req = Some "" →
       Api.urandom e = Ok r →
       (∃ response,
          fst (Api.chat_endpoint create_agent req e st')
          = Api.Status200 response (Api.uuid4_str r))
       ∧ (Api.uuid4_str r = sid ↔ Api.uuid4_int r = Api.uuid4_int r1))
  ∧ (∃ response, fst (Api.chat_endpoint create_agent req1 e1 st) = Api.Status200 response sid)
  ∧ (∃ response, fst (Api.chat_endpoint create_agent req2 e2 stk) = Api.Status200 response sid)
  ∧ (∃ l, Api.session_storage stk !! sid = Some l
          ∧ Api.get_or_create_session sid stk = (l, stk))
  ∧ (Api.ensure_memory e1 = Ok () → Api.ensure_memory e2 = Ok () →
     reply1 ≠ Agent.sentinel →
     ∃ ps : list (string * string),
       length ps ≤ length mids
       ∧ Forall (fun p => snd p ≠ "" ∧ snd p ≠ Agent.sentinel) ps
       ∧ Agent.transcript (Api.agent stk)
         = (Agent.transcript (Api.agent st) ++ Exchange.turns first
            ++ flat_map Exchange.turns ps)%list
       ∧ ∃ replayed,
           last (Agent.invocations (Api.agent st2))
           = Some {| Agent.input := Api.message req2;
                     Agent.input_history := replayed |}
           ∧ (length ps ≤ 9 →
              ∃ older,
                replayed = (older ++ Exchange.messages first
                            ++ flat_map Exchange.messages ps)%list)
           ∧ (10 ≤ length ps →
              replayed = flat_map Exchange.messages (keep_last 10 ps))).
Proof.
  intros sid reply1 first st1 stk st2.
  assert (Hgen : ∀ (req : Api.ChatRequest) (e : Api.env) (r : N),
            Api.session_id req = None ∨ Api.session_id req = Some "" →
            Api.urandom e = Ok r →
            Api.resolve_session_id req e = Ok (Api.uuid4_str r)).
  { intros req e r Hn Hr. unfold Api.resolve_session_id.
    destruct Hn as [-> | ->]; simpl; by rewrite Hr. }
  assert (Hsid1 : Api.resolve_session_id req1 e1 = Ok sid) by by apply Hgen.
  assert (Hne : sid ≠ "") by apply uuid4_str_nonempty.
  assert (Hsid2 : Api.resolve_session_id req2 e2 = Ok sid).
  { unfold Api.resolve_session_id. rewrite Hsame.
    apply eqb_false_neq in Hne. fold sid. by rewrite Hne. }
  split; [apply uuid_str_length |]. split; [done |].
  split.
  { intros req e st' r Hn Hr. split.
    - apply chat_endpoint_status_200. by apply Hgen.
    - split; [apply uuid4_str_inj | intros Heq].
      unfold sid, Api.uuid4_str. by rewrite Heq. }
  split. { by apply chat_endpoint_status_200. }
  split. { by apply chat_endpoint_status_200. }
  split.
  { destruct (serve_keeps create_agent mids sid st1) as [l Hl].
    { by apply chat_endpoint_session_stored. }
    exists l. split; [done |]. by apply get_or_create_session_known. }
  intros Hmem1 Hmem2 Hrec.
  assert (Hrec1 : Agent.recordable reply1 = true).
  { apply recordable_spec. split; [apply chat_reply_nonempty | done]. }
  assert (Hag1 : Api.agent st1
                 = {| Agent.chat_history :=
                        keep_last 20 (Agent.chat_history (Api.agent st)
                                      ++ Exchange.turns first);
                      Agent.invocations :=
                        (Agent.invocations (Api.agent st)
                         ++ [{| Agent.input := Api.message req1;
                                Agent.input_history :=
                                  Agent.format_history
                                    (Agent.chat_history (Api.agent st)) |}])%list;
                      Agent.transcript :=
                        (Agent.transcript (Api.agent st) ++ Exchange.turns first)%list |}).
  { subst st1. rewrite (chat_endpoint_agent create_agent req1 e1 st sid Hsid1 Hmem1).
    revert Hrec1. subst first reply1.
    rewrite (chat_with_agent create_agent _ _ (Api.invoke e1)) by done.
    cbn [fst snd]. by intros ->. }
  destruct (serve_recorded create_agent mids st1) as (ps & Hlen & Hps & Htr & Hh).
  { rewrite Hag1. cbn [Agent.chat_history]. rewrite keep_last_length. lia. }
  exists ps. split; [done |]. split.
  { eapply Forall_impl; [exact Hps |]. intros p Hp. by apply recordable_spec. }
  split. { fold stk in Htr. rewrite Htr, Hag1. cbn [Agent.transcript]. by rewrite <- app_assoc. }
  eexists. split.
  { subst st2. apply (chat_endpoint_last_invocation create_agent req2 e2 stk sid Hsid2 Hmem2). }
  fold stk in Hh. rewrite Hh, Hag1. cbn [Agent.chat_history].
  rewrite keep_last_app, <- app_assoc.
  change (Exchange.turns first ++ flat_map Exchange.turns ps)%list
    with (flat_map Exchange.turns (first :: ps)).
  destruct (format_history_recent (Agent.chat_history (Api.agent st)) (first :: ps))
    as [Hshort Hlong]; [by constructor |].
  split.
  - intros H9. destruct Hshort as [older Hold]; [simpl; lia |].
    exists older. by rewrite Hold.
  - intros H10.
    rewrite Hlong by (simpl; lia).
    f_equal. unfold keep_last. simpl length.
    replace (S (length ps) - 10) with (S (length ps - 10)) by lia. done.
Qed.

Lemma session_id_generation_and_reuse_witness :
  let echo : Agent.executor :=
    fun d => Ok (Agent.RespDict (Some (Agent.PyStr ("re: " ++ Agent.input d)))) in
  let env_of (n : N) : Api.env :=
    {| Api.urandom := Ok n; Api.ensure_memory := Ok (); Api.invoke := echo;
       Api.memory_messages := None |} in
  let req1 := {| Api.message := "first"; Api.session_id := None |} in
  let req2 := {| Api.message := "again"; Api.session_id := Some (Api.uuid4_str 1) |} in
  let mids := [({| Api.message := "other"; Api.session_id := None |}, env_of 2%N)] in
  let create_agent : result Agent.executor := Raise "no key" in
  let sid := Api.uuid4_str 1 in
  let st1 := snd (Api.chat_endpoint create_agent req1 (env_of 1%N) Api.initial_state) in
  let stk := snd (Api.serve create_agent mids st1) in
  let st2 := snd (Api.chat_endpoint create_agent req2 (env_of 3%N) stk) in
  (Api.session_id req1 = None ∨ Api.session_id req1 = Some "")
  ∧ Api.urandom (env_of 1%N) = Ok 1%N
  ∧ Api.session_id req2 = Some (Api.uuid4_str 1)
  ∧ String.length sid = 36
  ∧ (∃ response,
       fst (Api.chat_endpoint create_agent req2 (env_of 3%N) stk)
       = Api.Status200 response sid)
  ∧ (∃ l, Api.session_storage stk !! sid = Some l
          ∧ Api.get_or_create_session sid stk = (l, stk))
  ∧ ∃ ps replayed older,
      length ps ≤ 1
      ∧ last (Agent.invocations (Api.agent st2))
        = Some {| Agent.input := "again"; Agent.input_history := replayed |}
      ∧ replayed = (older ++ [Agent.HumanMessage "first"; Agent.AIMessage "re: first"]
                    ++ flat_map Exchange.messages ps)%list.
Proof.
  intros echo env_of req1 req2 mids create_agent sid st1 stk st2.
  split; [by left |]. do 2 (split; [reflexivity |]).
  destruct (session_id_generation_and_reuse create_agent req1 req2
              (env_of 1%N) (env_of 3%N) mids Api.initial_state 1%N)
    as (Hlen & _ & _ & _ & H2 & Hl & Hreplay); [by left | reflexivity | reflexivity |].
  split; [exact Hlen |]. split; [exact H2 |]. split; [exact Hl |].
  destruct Hreplay as (ps & Hps & _ & _ & replayed & Hlast & Hshort & _);
    [reflexivity | reflexivity | vm_compute; discriminate |].
  destruct Hshort as [older Hold]; [simpl in Hps; lia |].
  exists ps, replayed, older. split; [exact Hps |]. split; [exact Hlast | exact Hold].
Defined.
